(** * kissdsp.spatial: spatial correlation matrices, steering vectors,
      free-field matrices and rotation matrices

    A shallow embedding of [kissdsp/spatial.py] ([scm], [steering],
    [freefield], [rotmat]) and the properties its specification states.

    Numbers.  The Python code computes in IEEE floating point
    ([np.float32], [np.csingle]).  The embedding is over the exact real
    numbers of the Standard Library and complex numbers built on them, so
    every statement below is about the exact arithmetic the code
    approximates: rounding, NaN and infinities are outside the model.  The
    two zeros of IEEE arithmetic are kept where the code can tell them
    apart, in the eigenvectors whose phase [np.angle] reads.

    Arrays.  A numpy array is a shape together with its entries; it is
    modelled as a record of its dimensions and an indexing function, whose
    values outside the shape are irrelevant.  Operations that numpy checks
    at run time (indexing, broadcasting, matrix product, slice assignment)
    return a [result], either a value or the exception raised. *)

From Stdlib Require Import Reals Lra Lia List ZArith Bool RNsatz.
Import ListNotations.

Local Open Scope R_scope.

(** ** Exceptions *)

Inductive error : Type :=
  | IndexError
  | ValueError
  | LinAlgError.

Inductive result (A : Type) : Type :=
  | Ok (a : A)
  | Raise (e : error).

Arguments Ok {A} a.
Arguments Raise {A} e.

Definition bind {A B : Type} (r : result A) (k : A -> result B) : result B :=
  match r with
  | Ok a => k a
  | Raise e => Raise e
  end.

Notation "x <- r ;; k" := (bind r (fun x => k))
  (at level 61, r at next level, right associativity).

Definition succeeds {A : Type} (r : result A) : bool :=
  match r with
  | Ok _ => true
  | Raise _ => false
  end.

(** [for i in range(0, n): s = body(i, s)], stopping at the first exception. *)
Definition for_range {S : Type} (n : nat) (body : nat -> S -> result S) (s : S)
  : result S :=
  fold_left (fun acc i => s' <- acc ;; body i s') (seq 0 n) (Ok s).

(** ** Complex numbers *)

Record complex : Type := mkC { Re : R; Im : R }.

Definition RtoC (x : R) : complex := mkC x 0.
Definition C0 : complex := RtoC 0.
Definition C1 : complex := RtoC 1.
(** Python's [1j]. *)
Definition Cj : complex := mkC 0 1.

Definition Cadd (z w : complex) : complex :=
  mkC (Re z + Re w) (Im z + Im w).
Definition Copp (z : complex) : complex :=
  mkC (- Re z) (- Im z).
Definition Cmul (z w : complex) : complex :=
  mkC (Re z * Re w - Im z * Im w) (Re z * Im w + Im z * Re w).
Definition Cconj (z : complex) : complex :=
  mkC (Re z) (- Im z).
Definition Cnorm2 (z : complex) : R := Re z * Re z + Im z * Im z.
Definition Cabs (z : complex) : R := sqrt (Cnorm2 z).
Definition Cdiv (z w : complex) : complex :=
  mkC ((Re z * Re w + Im z * Im w) / Cnorm2 w)
      ((Im z * Re w - Re z * Im w) / Cnorm2 w).
(** [np.exp] on a complex argument. *)
Definition Cexp (z : complex) : complex :=
  mkC (exp (Re z) * cos (Im z)) (exp (Re z) * sin (Im z)).

(** ** Floating-point zeros

    The real numbers have one zero; IEEE floating point has two, +0.0 and
    -0.0, and [np.arctan2] tells them apart.  A float is the real number it
    represents together with its sign bit, which is read only where the
    number is zero. *)
Record fnum : Type := mkF { fval : R; signbit : bool }.

(** A complex float: its value and the sign bits of its two parts. *)
Record cfloat : Type := mkCF {
  value :> complex;
  re_signbit : bool;
  im_signbit : bool
}.

Definition real_part (z : cfloat) : fnum := mkF (Re z) (re_signbit z).
Definition imag_part (z : cfloat) : fnum := mkF (Im z) (im_signbit z).

(** A complex number as a complex float whose zero parts are +0.0. *)
Definition cfloat_of (z : complex) : cfloat := mkCF z false false.

(** [np.arctan2 y x]: at y = +-0 with x < 0 or x = -0 the result is +-pi,
    at y = +-0 with x > 0 or x = +0 it is +-0. *)
Definition arctan2 (y x : fnum) : R :=
  if Rlt_dec 0 (fval x) then atan (fval y / fval x)
  else if Rlt_dec (fval x) 0 then
    if Rlt_dec 0 (fval y) then atan (fval y / fval x) + PI
    else if Rlt_dec (fval y) 0 then atan (fval y / fval x) - PI
    else if signbit y then - PI else PI
  else if Rlt_dec 0 (fval y) then PI / 2
  else if Rlt_dec (fval y) 0 then - (PI / 2)
  else if signbit x then (if signbit y then - PI else PI)
  else 0.

(** [np.angle z = np.arctan2(z.imag, z.real)]. *)
Definition angle (z : cfloat) : R := arctan2 (imag_part z) (real_part z).

(** ** Element types of arrays *)

Class Scalar (A : Type) : Type := {
  zero : A;
  one : A;
  add : A -> A -> A;
  mul : A -> A -> A
}.

#[export] Instance R_Scalar : Scalar R :=
  {| zero := 0; one := 1; add := Rplus; mul := Rmult |}.

#[export] Instance complex_Scalar : Scalar complex :=
  {| zero := C0; one := C1; add := Cadd; mul := Cmul |}.

(** [sum_to n f] is f 0 + ... + f (n-1), the accumulation of a dot product. *)
Fixpoint sum_to {A : Type} `{Scalar A} (n : nat) (f : nat -> A) : A :=
  match n with
  | O => zero
  | S n' => add (sum_to n' f) (f n')
  end.

(** ** Arrays *)

Record ndarray2 (A : Type) : Type := mk2 {
  rows : nat;
  cols : nat;
  at2 : nat -> nat -> A
}.

Record ndarray3 (A : Type) : Type := mk3 {
  dim0 : nat;
  dim1 : nat;
  dim2 : nat;
  at3 : nat -> nat -> nat -> A
}.

Arguments mk2 {A} rows cols at2.
Arguments rows {A} n.
Arguments cols {A} n.
Arguments at2 {A} n i j.
Arguments mk3 {A} dim0 dim1 dim2 at3.
Arguments dim0 {A} n.
Arguments dim1 {A} n.
Arguments dim2 {A} n.
Arguments at3 {A} n i j k.

Definition shape2 {A : Type} (a : ndarray2 A) : nat * nat := (rows a, cols a).
Definition shape3 {A : Type} (a : ndarray3 A) : nat * nat * nat :=
  (dim0 a, dim1 a, dim2 a).

(** Two arrays are the same when shapes and entries inside the shape agree. *)
Definition array2_eq {A : Type} (a b : ndarray2 A) : Prop :=
  shape2 a = shape2 b /\
  forall i j, (i < rows a)%nat -> (j < cols a)%nat -> at2 a i j = at2 b i j.

(** Array literals, written as nested lists. *)
Definition array2 {A : Type} `{Scalar A} (l : list (list A)) : ndarray2 A :=
  mk2 (length l) (length (hd [] l))
      (fun i j => nth j (nth i l []) zero).

Definition array3 {A : Type} `{Scalar A} (l : list (list (list A)))
  : ndarray3 A :=
  mk3 (length l) (length (hd [] l)) (length (hd [] (hd [] l)))
      (fun i j k => nth k (nth j (nth i l []) []) zero).

(** [np.zeros], [np.ones], [np.eye]. *)
Definition zeros2 {A : Type} `{Scalar A} (r c : nat) : ndarray2 A :=
  mk2 r c (fun _ _ => zero).
Definition zeros3 {A : Type} `{Scalar A} (d0 d1 d2 : nat) : ndarray3 A :=
  mk3 d0 d1 d2 (fun _ _ _ => zero).
Definition ones3 {A : Type} `{Scalar A} (d0 d1 d2 : nat) : ndarray3 A :=
  mk3 d0 d1 d2 (fun _ _ _ => one).
Definition eye {A : Type} `{Scalar A} (n : nat) : ndarray2 A :=
  mk2 n n (fun i j => if Nat.eqb i j then one else zero).

(** [R[i, j] = v] on a 2-D array, with [i], [j] non-negative literals. *)
Definition setitem2 {A : Type} (a : ndarray2 A) (i j : nat) (v : A)
  : result (ndarray2 A) :=
  if (i <? rows a)%nat && (j <? cols a)%nat then
    Ok (mk2 (rows a) (cols a)
          (fun i' j' => if Nat.eqb i' i && Nat.eqb j' j then v else at2 a i' j'))
  else Raise IndexError.

(** [a.T] and [a.conj()]. *)
Definition transpose {A : Type} (a : ndarray2 A) : ndarray2 A :=
  mk2 (cols a) (rows a) (fun i j => at2 a j i).
Definition conj2 (a : ndarray2 complex) : ndarray2 complex :=
  mk2 (rows a) (cols a) (fun i j => Cconj (at2 a i j)).

(** [a @ b] on 2-D arrays: the inner dimensions must agree. *)
Definition matmul {A : Type} `{Scalar A} (a b : ndarray2 A)
  : result (ndarray2 A) :=
  if Nat.eqb (cols a) (rows b) then
    Ok (mk2 (rows a) (cols b)
          (fun i j => sum_to (cols a) (fun k => mul (at2 a i k) (at2 b k j))))
  else Raise ValueError.

(** ** [rotmat] *)

Definition rotmat (yaw pitch roll : R) : result (ndarray2 R) :=
  let R := zeros2 3 3 in
  let alpha := yaw in
  let beta := pitch in
  let gamma := roll in
  R <- setitem2 R 0 0 (cos beta * cos gamma) ;;
  R <- setitem2 R 0 1 (sin alpha * sin beta * cos gamma - cos alpha * sin gamma) ;;
  R <- setitem2 R 0 2 (cos alpha * sin beta * cos gamma + sin alpha * sin gamma) ;;
  R <- setitem2 R 1 0 (cos beta * sin gamma) ;;
  R <- setitem2 R 1 1 (sin alpha * sin beta * sin gamma + cos alpha * cos gamma) ;;
  R <- setitem2 R 1 2 (cos alpha * sin beta * sin gamma - sin alpha * cos gamma) ;;
  R <- setitem2 R 2 0 (- sin beta) ;;
  R <- setitem2 R 2 1 (sin alpha * cos beta) ;;
  R <- setitem2 R 2 2 (cos alpha * cos beta) ;;
  Ok R.

(** The elementary rotations of the specification's convention. *)
Definition Rz (t : R) : ndarray2 R :=
  array2 [[cos t; - sin t; 0]; [sin t; cos t; 0]; [0; 0; 1]].
Definition Ry (t : R) : ndarray2 R :=
  array2 [[cos t; 0; sin t]; [0; 1; 0]; [- sin t; 0; cos t]].
Definition Rx (t : R) : ndarray2 R :=
  array2 [[1; 0; 0]; [0; cos t; - sin t]; [0; sin t; cos t]].

(** The specification's composition Rz(a) . Ry(b) . Rx(c). *)
Definition compose_zyx (a b c : R) : result (ndarray2 R) :=
  m <- matmul (Rz a) (Ry b) ;;
  matmul m (Rx c).

(** Determinant of a 3x3 array. *)
Definition det3 (m : ndarray2 R) : R :=
  at2 m 0 0 * (at2 m 1 1 * at2 m 2 2 - at2 m 1 2 * at2 m 2 1)
  - at2 m 0 1 * (at2 m 1 0 * at2 m 2 2 - at2 m 1 2 * at2 m 2 0)
  + at2 m 0 2 * (at2 m 1 0 * at2 m 2 1 - at2 m 1 1 * at2 m 2 0).

(** ** numpy indexing and broadcasting *)

Record ndarray1 (A : Type) : Type := mk1 {
  len1 : nat;
  at1 : nat -> A
}.

Arguments mk1 {A} len1 at1.
Arguments len1 {A} n.
Arguments at1 {A} n i.

(** Broadcasting two axis lengths: equal, or one of them is 1. *)
Definition broadcast_dim (m n : nat) : result nat :=
  if Nat.eqb m n then Ok m
  else if Nat.eqb m 1 then Ok n
  else if Nat.eqb n 1 then Ok m
  else Raise ValueError.

(** An axis of length [m] can be stretched to length [n]. *)
Definition broadcasts_to (m n : nat) : bool :=
  Nat.eqb m n || Nat.eqb m 1.

(** Index into an axis of length [m] that may have been stretched. *)
Definition bidx (m i : nat) : nat :=
  if Nat.eqb m 1 then 0%nat else i.

(** [a[:, :, b]] for a non-negative [b]. *)
Definition getbin {A : Type} (a : ndarray3 A) (b : nat) : result (ndarray2 A) :=
  if (b <? dim2 a)%nat then
    Ok (mk2 (dim0 a) (dim1 a) (fun i f => at3 a i f b))
  else Raise IndexError.

(** [a * b], elementwise with broadcasting. *)
Definition multiply {A : Type} `{Scalar A} (a b : ndarray2 A)
  : result (ndarray2 A) :=
  r <- broadcast_dim (rows a) (rows b) ;;
  c <- broadcast_dim (cols a) (cols b) ;;
  Ok (mk2 r c
        (fun i j => mul (at2 a (bidx (rows a) i) (bidx (cols a) j))
                        (at2 b (bidx (rows b) i) (bidx (cols b) j)))).

(** [a[b, :, :] = v] for a non-negative [b]: [v] is stretched to the slot. *)
Definition setbin {A : Type} (a : ndarray3 A) (b : nat) (v : ndarray2 A)
  : result (ndarray3 A) :=
  if (b <? dim0 a)%nat then
    if broadcasts_to (rows v) (dim1 a) && broadcasts_to (cols v) (dim2 a) then
      Ok (mk3 (dim0 a) (dim1 a) (dim2 a)
            (fun b' i j =>
               if Nat.eqb b' b then at2 v (bidx (rows v) i) (bidx (cols v) j)
               else at3 a b' i j))
    else Raise ValueError
  else Raise IndexError.

(** ** [scm] *)

Definition scm (Xs : ndarray3 complex) (Ms : option (ndarray3 complex))
  : result (ndarray3 complex) :=
  let nb_of_channels := dim0 Xs in
  let nb_of_frames := dim1 Xs in
  let nb_of_bins := dim2 Xs in
  let Ms := match Ms with
            | None => ones3 (dim0 Xs) (dim1 Xs) (dim2 Xs)
            | Some Ms => Ms
            end in
  let XXs := zeros3 nb_of_bins nb_of_channels nb_of_channels in
  for_range nb_of_bins
    (fun bin_index XXs =>
       X <- getbin Xs bin_index ;;
       M <- getbin Ms bin_index ;;
       XM <- multiply X M ;;
       P <- matmul XM (transpose (conj2 XM)) ;;
       setbin XXs bin_index P)
    XXs.

(** ** [steering] *)

(** [a[:, :, -1]]. *)
Definition last_column {A : Type} (a : ndarray3 A) : result (ndarray2 A) :=
  if (0 <? dim2 a)%nat then
    Ok (mk2 (dim0 a) (dim1 a) (fun b i => at3 a b i (dim2 a - 1)))
  else Raise IndexError.

(** [a[:, 0]]. *)
Definition first_column {A : Type} (a : ndarray2 A) : result (ndarray1 A) :=
  if (0 <? cols a)%nat then Ok (mk1 (rows a) (fun b => at2 a b 0))
  else Raise IndexError.

(** [np.tile(np.expand_dims(v, axis=1), (1, n))]. *)
Definition tile_columns {A : Type} (v : ndarray1 A) (n : nat) : ndarray2 A :=
  mk2 (len1 v) n (fun b _ => at1 v b).

(** Elementwise application of a function, as numpy's ufuncs do. *)
Definition amap2 {A B : Type} (f : A -> B) (a : ndarray2 A) : ndarray2 B :=
  mk2 (rows a) (cols a) (fun i j => f (at2 a i j)).

(** [a /= d]: [d] must stretch to the shape of [a], which is kept.  The
    quotients are given by their values. *)
Definition idivide (a : ndarray2 cfloat) (d : ndarray2 complex)
  : result (ndarray2 complex) :=
  if broadcasts_to (rows d) (rows a) && broadcasts_to (cols d) (cols a) then
    Ok (mk2 (rows a) (cols a)
          (fun i j => Cdiv (at2 a i j)
                           (at2 d (bidx (rows d) i) (bidx (cols d) j))))
  else Raise ValueError.

(** The unit-modulus factor [np.exp(1j * np.angle(z))]. *)
Definition phase (z : cfloat) : complex :=
  Cexp (Cmul Cj (RtoC (angle z))).

(** [np.linalg.eigh] is a routine of the library, taken as a parameter: on a
    stack of matrices it returns the eigenvalues, one row per matrix, and
    the eigenvectors, as the columns of each matrix of the second component,
    or raises [LinAlgError].  The stack is complex, as [scm] and [freefield]
    produce it, so that the eigenvectors are complex and the division in
    place by a complex factor is accepted.  The eigenvectors are complex
    floats: the signs of their zero parts are part of what the routine
    returns. *)
Section Steering.

Variable eigh : ndarray3 complex -> result (ndarray2 R * ndarray3 cfloat).

Definition steering (XXs : ndarray3 complex) : result (ndarray2 complex) :=
  let nb_of_bins := dim0 XXs in
  let nb_of_channels := dim1 XXs in
  wv <- eigh XXs ;;
  vs <- last_column (snd wv) ;;
  v0 <- first_column vs ;;
  let v0s := tile_columns v0 nb_of_channels in
  idivide vs (amap2 phase v0s).

End Steering.

(** ** [freefield] *)

(** [np.arange(0, n)]. *)
Definition arange (n : Z) : ndarray1 Z :=
  mk1 (Z.to_nat n) (fun k => Z.of_nat k).

(** [np.expand_dims(v, axis=1)] and [np.expand_dims(v, axis=0)] on 1-D. *)
Definition as_column {A : Type} (v : ndarray1 A) : ndarray2 A :=
  mk2 (len1 v) 1 (fun i _ => at1 v i).
Definition as_row {A : Type} (v : ndarray1 A) : ndarray2 A :=
  mk2 1 (len1 v) (fun _ j => at1 v j).

(** A Python sequence of numbers seen as a 1-D array. *)
Definition asarray (l : list R) : ndarray1 R :=
  mk1 (length l) (fun i => nth i l 0).

(** [np.expand_dims(a, axis=2)] and [np.expand_dims(a, axis=1)] on 2-D. *)
Definition expand_dims_2 {A : Type} (a : ndarray2 A) : ndarray3 A :=
  mk3 (rows a) (cols a) 1 (fun b i _ => at2 a b i).
Definition expand_dims_1 {A : Type} (a : ndarray2 A) : ndarray3 A :=
  mk3 (rows a) 1 (cols a) (fun b _ j => at2 a b j).

Definition conj3 (a : ndarray3 complex) : ndarray3 complex :=
  mk3 (dim0 a) (dim1 a) (dim2 a) (fun b i j => Cconj (at3 a b i j)).

(** [a @ b] on stacks of matrices: the leading axes broadcast, the inner
    dimensions must agree. *)
Definition matmul3 {A : Type} `{Scalar A} (a b : ndarray3 A)
  : result (ndarray3 A) :=
  n <- broadcast_dim (dim0 a) (dim0 b) ;;
  if Nat.eqb (dim2 a) (dim1 b) then
    Ok (mk3 n (dim1 a) (dim2 b)
          (fun t i j =>
             sum_to (dim2 a)
               (fun k => mul (at3 a (bidx (dim0 a) t) i k)
                             (at3 b (bidx (dim0 b) t) k j))))
  else Raise ValueError.

Definition freefield (tdoas : list R) (frame_size : Z)
  : result (ndarray3 complex) :=
  let nb_of_channels := length tdoas in
  let nb_of_bins := (Z.quot frame_size 2 + 1)%Z in
  let ks := arange nb_of_bins in
  let scaled :=
    amap2 (fun k => Cmul (Cmul (Cmul (Copp Cj) (RtoC 2)) (RtoC PI))
                         (RtoC (IZR k)))
          (as_column ks) in
  prod <- matmul scaled (amap2 RtoC (as_row (asarray tdoas))) ;;
  let As := amap2 (fun z => Cexp (Cdiv z (RtoC (IZR frame_size)))) prod in
  let AAs := matmul3 (expand_dims_2 As) (conj3 (expand_dims_1 As)) in
  AAs.

(** ** Auxiliary definitions used to state the properties *)

(** The mask [scm] works with: the one given, or all ones. *)
Definition mask_or_ones (Xs : ndarray3 complex)
  (Ms : option (ndarray3 complex)) : ndarray3 complex :=
  match Ms with
  | None => ones3 (dim0 Xs) (dim1 Xs) (dim2 Xs)
  | Some Ms => Ms
  end.

(** The body of the loop of [scm]. *)
Definition scm_body (Xs Ms : ndarray3 complex) (bin_index : nat)
  (XXs : ndarray3 complex) : result (ndarray3 complex) :=
  X <- getbin Xs bin_index ;;
  M <- getbin Ms bin_index ;;
  XM <- multiply X M ;;
  P <- matmul XM (transpose (conj2 XM)) ;;
  setbin XXs bin_index P.

(** Entry (i, f) of [X * M] at bin [b], with the stretching numpy applies. *)
Definition masked_entry (Xs Ms : ndarray3 complex) (b i f : nat) : complex :=
  Cmul (at3 Xs (bidx (dim0 Xs) i) (bidx (dim1 Xs) f) b)
       (at3 Ms (bidx (dim0 Ms) i) (bidx (dim1 Ms) f) b).

(** Entry (i, j) of [XM @ XM.conj().T] at bin [b], over [nf] frames. *)
Definition corr_entry (Xs Ms : ndarray3 complex) (nf b i j : nat) : complex :=
  sum_to nf (fun f => Cmul (masked_entry Xs Ms b i f)
                           (Cconj (masked_entry Xs Ms b j f))).

(** The channel and frame axes of the mask are accepted by [X * M] and by
    the assignment into [XXs]. *)
Definition mask_fits (Xs Ms : ndarray3 complex) : bool :=
  match broadcast_dim (dim0 Xs) (dim0 Ms),
        broadcast_dim (dim1 Xs) (dim1 Ms) with
  | Ok r, Ok _ => broadcasts_to r (dim0 Xs)
  | _, _ => false
  end.

(** A mask as the specification requires it: absent, or of the shape of X. *)
Definition mask_compatible (Xs : ndarray3 complex)
  (Ms : option (ndarray3 complex)) : Prop :=
  match Ms with
  | None => True
  | Some Ms => shape3 Ms = shape3 Xs
  end.

(** The weight at (channel, frame, bin): the mask's entry, or 1. *)
Definition weight (Ms : option (ndarray3 complex)) (i f b : nat) : complex :=
  match Ms with
  | None => C1
  | Some Ms => at3 Ms i f b
  end.

(** The specification's entry of the correlation matrix:
    the sum over frames of (X.M)[i,f,b] . conj((X.M)[j,f,b]). *)
Definition scm_spec_entry (Xs : ndarray3 complex)
  (Ms : option (ndarray3 complex)) (b i j : nat) : complex :=
  sum_to (dim1 Xs)
    (fun f => Cmul (Cmul (at3 Xs i f b) (weight Ms i f b))
                   (Cconj (Cmul (at3 Xs j f b) (weight Ms j f b)))).

(** The 2-channel, 4-frame, 1-bin signal of all ones. *)
Definition ones_2x4x1 : ndarray3 complex :=
  array3 [[[C1]; [C1]; [C1]; [C1]]; [[C1]; [C1]; [C1]; [C1]]].

(** The nine entries [rotmat] writes, and the shape of its result. *)
Record rotmat_entries (yaw pitch roll : R) (M : ndarray2 R) : Prop := {
  re_shape : shape2 M = (3, 3)%nat;
  re_00 : at2 M 0 0 = cos pitch * cos roll;
  re_01 : at2 M 0 1 = sin yaw * sin pitch * cos roll - cos yaw * sin roll;
  re_02 : at2 M 0 2 = cos yaw * sin pitch * cos roll + sin yaw * sin roll;
  re_10 : at2 M 1 0 = cos pitch * sin roll;
  re_11 : at2 M 1 1 = sin yaw * sin pitch * sin roll + cos yaw * cos roll;
  re_12 : at2 M 1 2 = cos yaw * sin pitch * sin roll - sin yaw * cos roll;
  re_20 : at2 M 2 0 = - sin pitch;
  re_21 : at2 M 2 1 = sin yaw * cos pitch;
  re_22 : at2 M 2 2 = cos yaw * cos pitch
}.

(** A sine and cosine pair: s^2 + c^2 = 1. *)
Definition unit_pair (s c : R) : Prop := s * s + c * c = 1.

(** The specification's plane-wave response exp(-j 2 pi k tdoa[c] / N). *)
Definition plane_wave (frame_size : Z) (tdoas : list R) (k c : nat) : complex :=
  Cexp (Cmul (Copp Cj)
             (RtoC (2 * PI * INR k * nth c tdoas 0 / IZR frame_size))).

(** What [np.linalg.eigh] guarantees about the shapes of its results on a
    stack [XXs] of square matrices. *)
Definition eigh_shapes (XXs : ndarray3 complex)
  (w : ndarray2 R) (V : ndarray3 cfloat) : Prop :=
  dim1 XXs = dim2 XXs /\
  shape2 w = (dim0 XXs, dim1 XXs) /\
  shape3 V = shape3 XXs.

(** Column [k] of [V[b]] is an eigenvector of [XXs[b]] for [w[b][k]]. *)
Definition eigen_column (XXs : ndarray3 complex)
  (w : ndarray2 R) (V : ndarray3 cfloat) (b k : nat) : Prop :=
  forall i, (i < dim1 XXs)%nat ->
    sum_to (dim2 XXs) (fun j => Cmul (at3 XXs b i j) (at3 V b j k))
    = Cmul (RtoC (at2 w b k)) (at3 V b i k).

(** The eigenvalues of bin [b] are in ascending order. *)
Definition ascending (XXs : ndarray3 complex) (w : ndarray2 R) (b : nat)
  : Prop :=
  forall k k', (k <= k')%nat -> (k' < dim1 XXs)%nat -> at2 w b k <= at2 w b k'.

(** The contract of [np.linalg.eigh] on a stack of Hermitian matrices. *)
Definition eigh_contract (XXs : ndarray3 complex)
  (w : ndarray2 R) (V : ndarray3 cfloat) : Prop :=
  eigh_shapes XXs w V /\
  forall b, (b < dim0 XXs)%nat ->
    ascending XXs w b /\
    forall k, (k < dim1 XXs)%nat -> eigen_column XXs w V b k.

(** ** Concrete inputs *)

(** An array of complex numbers as complex floats with zeros +0.0. *)
Definition floats3 (a : ndarray3 complex) : ndarray3 cfloat :=
  mk3 (dim0 a) (dim1 a) (dim2 a) (fun b i j => cfloat_of (at3 a b i j)).

(** A 2-channel, 2-frame, 1-bin signal and a mask of its shape. *)
Definition signal_2x2x1 : ndarray3 complex :=
  array3 [[[Cj]; [C1]]; [[C1]; [Cj]]].
Definition mask_2x2x1 : ndarray3 complex :=
  array3 [[[RtoC 2]; [C1]]; [[C1]; [RtoC 3]]].

(** One bin holding diag(1, 2), with its eigenvalues 1 <= 2 and the
    canonical basis as eigenvectors. *)
Definition diag_1_2 : ndarray3 complex :=
  array3 [[[C1; C0]; [C0; RtoC 2]]].
Definition eigenvalues_1_2 : ndarray2 R := array2 [[1; 2]].
Definition basis_2 : ndarray3 cfloat :=
  floats3 (array3 [[[C1; C0]; [C0; C1]]]).
Definition eigh_diag_1_2 (XXs : ndarray3 complex)
  : result (ndarray2 R * ndarray3 cfloat) :=
  Ok (eigenvalues_1_2, basis_2).

(** One bin holding [[4,4],[4,4]], with eigenvalues 0 <= 8; the eigenvector
    returned for 8 is (j, j) / sqrt 2, of phase pi/2. *)
Definition fours_2x2 : ndarray3 complex :=
  array3 [[[RtoC 4; RtoC 4]; [RtoC 4; RtoC 4]]].
Definition eigenvalues_0_8 : ndarray2 R := array2 [[0; 8]].
Definition vectors_fours : ndarray3 cfloat :=
  floats3 (array3 [[[RtoC (/ sqrt 2); mkC 0 (/ sqrt 2)];
                    [RtoC (- / sqrt 2); mkC 0 (/ sqrt 2)]]]).
Definition eigh_fours (XXs : ndarray3 complex)
  : result (ndarray2 R * ndarray3 cfloat) :=
  Ok (eigenvalues_0_8, vectors_fours).




(** ** Further definitions used to state properties of the code *)

(** The quadratic form v^H . XX[b] . v of bin [b], over [n] channels. *)
Definition quadratic_form (XX : ndarray3 complex) (b n : nat)
  (v : nat -> complex) : complex :=
  sum_to n (fun i =>
    sum_to n (fun j => Cmul (Cmul (Cconj (v i)) (at3 XX b i j)) (v j))).

(** The masked signal X . M, entry by entry. *)
Definition masked_signal (Xs : ndarray3 complex)
  (Ms : option (ndarray3 complex)) : ndarray3 complex :=
  mk3 (dim0 Xs) (dim1 Xs) (dim2 Xs)
      (fun i f b => Cmul (at3 Xs i f b) (weight Ms i f b)).

(** The signal multiplied by a constant, [c * Xs]. *)
Definition scale3 (c : complex) (Xs : ndarray3 complex) : ndarray3 complex :=
  mk3 (dim0 Xs) (dim1 Xs) (dim2 Xs) (fun i f b => Cmul c (at3 Xs i f b)).

(** The number of frames of [X * M] when the mask is accepted. *)
Definition broadcast_frames (Xs Ms : ndarray3 complex) : nat :=
  if Nat.eqb (dim1 Xs) 1 then dim1 Ms else dim1 Xs.

(** A mask with a single channel for [signal_2x2x1]. *)
Definition mask_1x2x1 : ndarray3 complex :=
  array3 [[[RtoC 2]; [RtoC 3]]].

(** A stack of two bins without channels, and what [np.linalg.eigh]
    returns on it: empty arrays. *)
Definition no_channels : ndarray3 complex := zeros3 2 0 0.
Definition no_vectors : ndarray3 cfloat := floats3 (zeros3 2 0 0).
Definition eigh_no_channels (XXs : ndarray3 complex)
  : result (ndarray2 R * ndarray3 cfloat) :=
  Ok (zeros2 2 0, no_vectors).


(** A decomposition of the three all-ones 2x2 matrices that [freefield]
    returns for two equal delays and frame size 4: eigenvalues 0 <= 2,
    eigenvectors (1, -1) and (1, 1). *)
Definition eigenvalues_0_2 : ndarray2 R := array2 [[0; 2]; [0; 2]; [0; 2]].
Definition vectors_ones : ndarray3 cfloat :=
  floats3 (array3 [[[C1; C1]; [RtoC (-1); C1]];
                   [[C1; C1]; [RtoC (-1); C1]];
                   [[C1; C1]; [RtoC (-1); C1]]]).
Definition eigh_ones (XXs : ndarray3 complex)
  : result (ndarray2 R * ndarray3 cfloat) :=
  Ok (eigenvalues_0_2, vectors_ones).

(** The product [M @ v] of a 3x3 array and a vector of three coordinates. *)
Definition apply3 (M : ndarray2 R) (v : R * R * R) : R * R * R :=
  let '(x, y, z) := v in
  (at2 M 0 0 * x + at2 M 0 1 * y + at2 M 0 2 * z,
   at2 M 1 0 * x + at2 M 1 1 * y + at2 M 1 2 * z,
   at2 M 2 0 * x + at2 M 2 1 * y + at2 M 2 2 * z).

(** The squared length of a vector of three coordinates. *)
Definition norm2_3 (v : R * R * R) : R :=
  let '(x, y, z) := v in x * x + y * y + z * z.
(** * Properties *)

(** ** Small facts shared by the proofs *)

Lemma lt_2_cases (i : nat) : (i < 2)%nat -> i = 0%nat \/ i = 1%nat.
Proof. lia. Qed.

Lemma lt_3_cases (i : nat) : (i < 3)%nat -> i = 0%nat \/ i = 1%nat \/ i = 2%nat.
Proof. lia. Qed.

Lemma complex_eq (z w : complex) : Re z = Re w -> Im z = Im w -> z = w.
Proof. destruct z, w; simpl; intros -> ->; reflexivity. Qed.

(** ** [rotmat] *)

(** [rotmat] never raises, and its result holds exactly the entries written. *)
Lemma rotmat_returns (yaw pitch roll : R) :
  exists M, rotmat yaw pitch roll = Ok M /\ rotmat_entries yaw pitch roll M.
Proof.
  eexists; split; [reflexivity|].
  constructor; reflexivity.
Qed.

Lemma compose_zyx_returns (a b c : R) :
  exists N, compose_zyx a b c = Ok N /\ shape2 N = (3, 3)%nat /\
    at2 N 0 0 = cos a * cos b /\
    at2 N 0 1 = cos a * sin b * sin c - sin a * cos c /\
    at2 N 0 2 = cos a * sin b * cos c + sin a * sin c /\
    at2 N 1 0 = sin a * cos b /\
    at2 N 1 1 = sin a * sin b * sin c + cos a * cos c /\
    at2 N 1 2 = sin a * sin b * cos c - cos a * sin c /\
    at2 N 2 0 = - sin b /\
    at2 N 2 1 = cos b * sin c /\
    at2 N 2 2 = cos b * cos c.
Proof.
  eexists; split; [reflexivity|].
  split; [reflexivity|].
  repeat split; cbn; ring.
Qed.

(** X17.  What the code computes for all angles: the composition with the
    yaw and roll angles exchanged, Rz(roll) . Ry(pitch) . Rx(yaw). *)
Lemma rotmat_is_zyx_of_roll_pitch_yaw (yaw pitch roll : R) :
  exists M N, rotmat yaw pitch roll = Ok M /\
    compose_zyx roll pitch yaw = Ok N /\ array2_eq M N.
Proof.
  destruct (rotmat_returns yaw pitch roll) as (M & HM & E).
  destruct (compose_zyx_returns roll pitch yaw)
    as (N & HN & Hs & n00 & n01 & n02 & n10 & n11 & n12 & n20 & n21 & n22).
  exists M, N; split; [exact HM|]; split; [exact HN|].
  destruct E as [Hshape e00 e01 e02 e10 e11 e12 e20 e21 e22].
  split; [congruence|].
  injection Hshape as Hr Hc. rewrite Hr, Hc.
  intros i j Hi Hj.
  destruct (lt_3_cases i Hi) as [->|[->| ->]];
    destruct (lt_3_cases j Hj) as [->|[->| ->]]; 
    match goal with |- ?l = ?r => 
      match goal with Hl : l = _, Hr : r = _ |- _ => rewrite Hl, Hr; ring end end.
Qed.

(** Polynomial identities behind orthogonality, over the sines and cosines
    taken as unknowns constrained by s^2 + c^2 = 1. *)
Lemma row0_unit (sa ca sb cb sg cg : R) :
  unit_pair sa ca -> unit_pair sb cb -> unit_pair sg cg ->
  (cb * cg) * (cb * cg)
  + (sa * sb * cg - ca * sg) * (sa * sb * cg - ca * sg)
  + (ca * sb * cg + sa * sg) * (ca * sb * cg + sa * sg) = 1.
Proof. unfold unit_pair; intros Ha Hb Hg; nsatz. Qed.

Lemma row1_unit (sa ca sb cb sg cg : R) :
  unit_pair sa ca -> unit_pair sb cb -> unit_pair sg cg ->
  (cb * sg) * (cb * sg)
  + (sa * sb * sg + ca * cg) * (sa * sb * sg + ca * cg)
  + (ca * sb * sg - sa * cg) * (ca * sb * sg - sa * cg) = 1.
Proof. unfold unit_pair; intros Ha Hb Hg; nsatz. Qed.

Lemma row2_unit (sa ca sb cb sg cg : R) :
  unit_pair sa ca -> unit_pair sb cb -> unit_pair sg cg ->
  (- sb) * (- sb) + (sa * cb) * (sa * cb) + (ca * cb) * (ca * cb) = 1.
Proof. unfold unit_pair; intros Ha Hb Hg; nsatz. Qed.

Lemma row01_orth (sa ca sb cb sg cg : R) :
  unit_pair sa ca -> unit_pair sb cb -> unit_pair sg cg ->
  (cb * cg) * (cb * sg)
  + (sa * sb * cg - ca * sg) * (sa * sb * sg + ca * cg)
  + (ca * sb * cg + sa * sg) * (ca * sb * sg - sa * cg) = 0.
Proof. unfold unit_pair; intros Ha Hb Hg; nsatz. Qed.

Lemma row02_orth (sa ca sb cb sg cg : R) :
  unit_pair sa ca -> unit_pair sb cb -> unit_pair sg cg ->
  (cb * cg) * (- sb)
  + (sa * sb * cg - ca * sg) * (sa * cb)
  + (ca * sb * cg + sa * sg) * (ca * cb) = 0.
Proof. unfold unit_pair; intros Ha Hb Hg; nsatz. Qed.

Lemma row12_orth (sa ca sb cb sg cg : R) :
  unit_pair sa ca -> unit_pair sb cb -> unit_pair sg cg ->
  (cb * sg) * (- sb)
  + (sa * sb * sg + ca * cg) * (sa * cb)
  + (ca * sb * sg - sa * cg) * (ca * cb) = 0.
Proof. unfold unit_pair; intros Ha Hb Hg; nsatz. Qed.

Lemma rows_det (sa ca sb cb sg cg : R) :
  unit_pair sa ca -> unit_pair sb cb -> unit_pair sg cg ->
  (cb * cg) * ((sa * sb * sg + ca * cg) * (ca * cb)
               - (ca * sb * sg - sa * cg) * (sa * cb))
  - (sa * sb * cg - ca * sg) * ((cb * sg) * (ca * cb)
                                - (ca * sb * sg - sa * cg) * (- sb))
  + (ca * sb * cg + sa * sg) * ((cb * sg) * (sa * cb)
                                - (sa * sb * sg + ca * cg) * (- sb)) = 1.
Proof. unfold unit_pair; intros Ha Hb Hg; nsatz. Qed.

Lemma sin_cos_unit (t : R) : unit_pair (sin t) (cos t).
Proof. pose proof (sin2_cos2 t) as H; unfold Rsqr in H; exact H. Qed.

(** C1 (fails on the code).  At yaw = pi/2, pitch = roll = 0 the code returns
    the quarter turn about X, [[1,0,0],[0,0,-1],[0,1,0]], whereas
    Rz(yaw) . Ry(pitch) . Rx(roll) is the quarter turn about Z: the two
    differ already in entry (0,0), which is 1 in the code's result and 0 in
    the composition. *)
Theorem rotmat_quarter_yaw_is_about_x :
  exists M N, rotmat (PI / 2) 0 0 = Ok M /\
    compose_zyx (PI / 2) 0 0 = Ok N /\
    array2_eq M (Rx (PI / 2)) /\
    at2 M 0 0 = 1 /\ at2 N 0 0 = 0 /\
    ~ array2_eq M N.
Proof.
  destruct (rotmat_returns (PI / 2) 0 0) as (M & HM & E).
  destruct (compose_zyx_returns (PI / 2) 0 0)
    as (N & HN & Hs & n00 & _).
  exists M, N; split; [exact HM|]; split; [exact HN|].
  destruct E as [Hshape e00 e01 e02 e10 e11 e12 e20 e21 e22].
  rewrite sin_PI2, cos_PI2, sin_0, cos_0 in *.
  assert (m00 : at2 M 0 0 = 1) by (rewrite e00; ring).
  assert (n00' : at2 N 0 0 = 0) by (rewrite n00; ring).
  split; [|split; [exact m00|split; [exact n00'|]]].
  - split; [exact Hshape|].
    injection Hshape as Hr Hc. rewrite Hr, Hc.
    intros i j Hi Hj.
    destruct (lt_3_cases i Hi) as [->|[->| ->]];
      destruct (lt_3_cases j Hj) as [->|[->| ->]];
      cbn [Rx array2 at2 nth]; rewrite ?sin_PI2, ?cos_PI2;
      match goal with |- ?l = _ =>
        match goal with Hl : l = _ |- _ => rewrite Hl; ring end end.
  - intros [_ Heq].
    injection Hshape as Hr Hc.
    assert (H : at2 M 0 0 = at2 N 0 0) by (apply Heq; lia).
    rewrite m00, n00' in H. lra.
Qed.

(** C8.  For all angles the result R of [rotmat] satisfies R . R^T = I
    (the 3x3 identity) and det R = 1. *)
Theorem rotmat_orthogonal_det_one (yaw pitch roll : R) :
  exists M P, rotmat yaw pitch roll = Ok M /\
    matmul M (transpose M) = Ok P /\
    array2_eq P (eye 3) /\
    det3 M = 1.
Proof.
  destruct (rotmat_returns yaw pitch roll) as (M & HM & E).
  destruct E as [Hshape e00 e01 e02 e10 e11 e12 e20 e21 e22].
  injection Hshape as Hr Hc.
  exists M. eexists. split; [exact HM|].
  split.
  { unfold matmul. cbn [rows cols transpose]. rewrite Nat.eqb_refl. reflexivity. }
  pose proof (sin_cos_unit yaw) as Ha.
  pose proof (sin_cos_unit pitch) as Hb.
  pose proof (sin_cos_unit roll) as Hg.
  split.
  - split; [unfold shape2; cbn [rows cols transpose eye]; rewrite Hr; reflexivity|].
    cbn [rows cols transpose at2]. rewrite Hr, Hc.
    intros i j Hi Hj.
    destruct (lt_3_cases i Hi) as [->|[->| ->]];
      destruct (lt_3_cases j Hj) as [->|[->| ->]];
      cbn [sum_to eye at2 Nat.eqb add mul zero one R_Scalar];
      rewrite ?e00, ?e01, ?e02, ?e10, ?e11, ?e12, ?e20, ?e21, ?e22;
      rewrite Rplus_0_l.
    + exact (row0_unit _ _ _ _ _ _ Ha Hb Hg).
    + exact (row01_orth _ _ _ _ _ _ Ha Hb Hg).
    + exact (row02_orth _ _ _ _ _ _ Ha Hb Hg).
    + rewrite <- (row01_orth _ _ _ _ _ _ Ha Hb Hg); ring.
    + exact (row1_unit _ _ _ _ _ _ Ha Hb Hg).
    + exact (row12_orth _ _ _ _ _ _ Ha Hb Hg).
    + rewrite <- (row02_orth _ _ _ _ _ _ Ha Hb Hg); ring.
    + rewrite <- (row12_orth _ _ _ _ _ _ Ha Hb Hg); ring.
    + exact (row2_unit _ _ _ _ _ _ Ha Hb Hg).
  - unfold det3.
    rewrite e00, e01, e02, e10, e11, e12, e20, e21, e22.
    exact (rows_det _ _ _ _ _ _ Ha Hb Hg).
Qed.

(** ** The error monad and the loop *)

Lemma for_range_S {S : Type} (n : nat) (body : nat -> S -> result S) (s : S) :
  for_range (Datatypes.S n) body s = (s' <- for_range n body s ;; body n s').
Proof.
  unfold for_range. rewrite seq_S, fold_left_app. reflexivity.
Qed.

Lemma bidx_lt (m i : nat) : (i < m)%nat -> bidx m i = i.
Proof.
  unfold bidx. destruct (Nat.eqb_spec m 1); [lia | reflexivity].
Qed.

Lemma sum_to_ext {A : Type} `{Scalar A} (n : nat) (f g : nat -> A) :
  (forall k, (k < n)%nat -> f k = g k) -> sum_to n f = sum_to n g.
Proof.
  induction n as [|n IH]; intros E; simpl; [reflexivity|].
  rewrite IH by (intros; apply E; lia). rewrite E by lia. reflexivity.
Qed.

(** ** [scm] *)

Lemma scm_unfold (Xs : ndarray3 complex) (Ms : option (ndarray3 complex)) :
  scm Xs Ms =
  for_range (dim2 Xs) (scm_body Xs (mask_or_ones Xs Ms))
    (zeros3 (dim2 Xs) (dim0 Xs) (dim0 Xs)).
Proof. reflexivity. Qed.

(** One iteration that is accepted writes the correlation matrix of its bin. *)
Lemma scm_body_ok (Xs Ms XXs : ndarray3 complex) (b r fr : nat) :
  (b < dim2 Xs)%nat -> (b < dim2 Ms)%nat ->
  broadcast_dim (dim0 Xs) (dim0 Ms) = Ok r ->
  broadcast_dim (dim1 Xs) (dim1 Ms) = Ok fr ->
  broadcasts_to r (dim0 Xs) = true ->
  shape3 XXs = (dim2 Xs, dim0 Xs, dim0 Xs) ->
  exists XX, scm_body Xs Ms b XXs = Ok XX /\
    shape3 XX = shape3 XXs /\
    forall b' i j,
      at3 XX b' i j =
      if Nat.eqb b' b then corr_entry Xs Ms fr b (bidx r i) (bidx r j)
      else at3 XXs b' i j.
Proof.
  intros HbX HbM Hr Hfr Hfit Hsh.
  injection Hsh as H0 H1 H2.
  unfold scm_body, getbin.
  apply Nat.ltb_lt in HbX, HbM. rewrite HbX, HbM.
  cbn [bind]. unfold multiply. cbn [rows cols].
  rewrite Hr, Hfr. cbn [bind].
  unfold matmul. cbn [rows cols transpose conj2]. rewrite Nat.eqb_refl.
  cbn [bind]. unfold setbin. cbn [rows cols].
  rewrite H0, H1, H2, HbX, Hfit. cbn [andb].
  eexists. split; [reflexivity|].
  split; [unfold shape3; cbn [dim0 dim1 dim2]; congruence|].
  intros b' i j. reflexivity.
Qed.

(** One iteration that is not accepted raises. *)
Lemma scm_body_raises (Xs Ms XXs : ndarray3 complex) (b : nat) :
  shape3 XXs = (dim2 Xs, dim0 Xs, dim0 Xs) ->
  mask_fits Xs Ms = false \/ (dim2 Ms <= b)%nat ->
  succeeds (scm_body Xs Ms b XXs) = false.
Proof.
  intros Hsh Hbad.
  injection Hsh as H0 H1 H2.
  unfold scm_body, getbin.
  destruct (b <? dim2 Xs)%nat; [|reflexivity].
  destruct (Nat.ltb_spec b (dim2 Ms)) as [HbM|HbM]; [|reflexivity].
  destruct Hbad as [Hbad|Hbad]; [|lia].
  cbn [bind]. unfold multiply. cbn [rows cols].
  unfold mask_fits in Hbad.
  destruct (broadcast_dim (dim0 Xs) (dim0 Ms)) as [r|e]; [|reflexivity].
  destruct (broadcast_dim (dim1 Xs) (dim1 Ms)) as [fr|e]; [|reflexivity].
  cbn [bind]. unfold matmul. cbn [rows cols transpose conj2].
  rewrite Nat.eqb_refl. cbn [bind]. unfold setbin. cbn [rows cols].
  rewrite H1, Hbad. cbn [andb].
  destruct (b <? dim0 XXs)%nat; reflexivity.
Qed.

(** The loop invariant of [scm]: after [n] accepted iterations the first
    [n] bins hold their correlation matrices and the others are still zero. *)
Lemma scm_loop_ok (Xs Ms : ndarray3 complex) (r fr n : nat) :
  broadcast_dim (dim0 Xs) (dim0 Ms) = Ok r ->
  broadcast_dim (dim1 Xs) (dim1 Ms) = Ok fr ->
  broadcasts_to r (dim0 Xs) = true ->
  (n <= dim2 Xs)%nat -> (n <= dim2 Ms)%nat ->
  exists XX,
    for_range n (scm_body Xs Ms) (zeros3 (dim2 Xs) (dim0 Xs) (dim0 Xs)) = Ok XX /\
    shape3 XX = (dim2 Xs, dim0 Xs, dim0 Xs) /\
    forall b i j,
      at3 XX b i j =
      if (b <? n)%nat then corr_entry Xs Ms fr b (bidx r i) (bidx r j) else C0.
Proof.
  intros Hr Hfr Hfit.
  induction n as [|n IH]; intros HnX HnM.
  - eexists. split; [reflexivity|]. split; [reflexivity|].
    intros b i j. reflexivity.
  - destruct IH as (XX & Hrun & Hsh & Hent); [lia|lia|].
    rewrite for_range_S, Hrun. cbn [bind].
    destruct (scm_body_ok Xs Ms XX n r fr) as (XX' & Hrun' & Hsh' & Hent');
      try assumption; try lia.
    exists XX'. split; [exact Hrun'|]. split; [congruence|].
    intros b i j. rewrite Hent', Hent.
    destruct (Nat.eqb_spec b n) as [->|Hne].
    + rewrite (proj2 (Nat.ltb_lt n (S n))) by lia. reflexivity.
    + destruct (Nat.ltb_spec b n), (Nat.ltb_spec b (S n)); try lia; reflexivity.
Qed.

(** The loop keeps the shape of the array it fills. *)
Lemma scm_loop_shape (Xs Ms XX0 : ndarray3 complex) (n : nat) :
  shape3 XX0 = (dim2 Xs, dim0 Xs, dim0 Xs) ->
  forall XX, for_range n (scm_body Xs Ms) XX0 = Ok XX ->
    shape3 XX = (dim2 Xs, dim0 Xs, dim0 Xs).
Proof.
  intros H0.
  induction n as [|n IH]; intros XX Hrun.
  - injection Hrun as <-. exact H0.
  - rewrite for_range_S in Hrun.
    destruct (for_range n (scm_body Xs Ms) XX0) as [XXn|e]; [|discriminate].
    cbn [bind] in Hrun. specialize (IH XXn eq_refl).
    unfold scm_body in Hrun.
    destruct (getbin Xs n) as [X|]; [|discriminate]. cbn [bind] in Hrun.
    destruct (getbin Ms n) as [M|]; [|discriminate]. cbn [bind] in Hrun.
    destruct (multiply X M) as [XM|]; [|discriminate]. cbn [bind] in Hrun.
    destruct (matmul XM (transpose (conj2 XM))) as [P|]; [|discriminate].
    cbn [bind] in Hrun. unfold setbin in Hrun.
    destruct (n <? dim0 XXn)%nat; [|discriminate].
    destruct (broadcasts_to (rows P) (dim1 XXn) && broadcasts_to (cols P) (dim2 XXn));
      [|discriminate].
    injection Hrun as <-. exact IH.
Qed.

(** The loop raises as soon as one iteration is not accepted. *)
Lemma scm_loop_raises (Xs Ms : ndarray3 complex) (n : nat) :
  (0 < n)%nat ->
  mask_fits Xs Ms = false \/ (dim2 Ms < n)%nat ->
  succeeds (for_range n (scm_body Xs Ms)
              (zeros3 (dim2 Xs) (dim0 Xs) (dim0 Xs))) = false.
Proof.
  induction n as [|n IH]; intros Hn Hbad; [lia|].
  rewrite for_range_S.
  destruct (for_range n (scm_body Xs Ms) (zeros3 (dim2 Xs) (dim0 Xs) (dim0 Xs)))
    as [XX|e] eqn:Hrun; [|reflexivity].
  cbn [bind].
  apply scm_body_raises.
  - eapply scm_loop_shape; [|exact Hrun]. reflexivity.
  - destruct Hbad as [Hbad|Hbad]; [left; exact Hbad|].
    destruct (Nat.le_gt_cases (dim2 Ms) n) as [Hle|Hgt]; [right; exact Hle|lia].
Qed.

(** A mask of the shape of X, or no mask: [scm] returns, and every entry is
    the sum over the frames that the specification gives. *)
Lemma scm_same_shape (Xs Ms : ndarray3 complex) :
  shape3 Ms = shape3 Xs ->
  exists XX,
    for_range (dim2 Xs) (scm_body Xs Ms)
      (zeros3 (dim2 Xs) (dim0 Xs) (dim0 Xs)) = Ok XX /\
    shape3 XX = (dim2 Xs, dim0 Xs, dim0 Xs) /\
    forall b i j, (b < dim2 Xs)%nat -> (i < dim0 Xs)%nat -> (j < dim0 Xs)%nat ->
      at3 XX b i j = scm_spec_entry Xs (Some Ms) b i j.
Proof.
  intros Hsh. injection Hsh as H0 H1 H2.
  destruct (scm_loop_ok Xs Ms (dim0 Xs) (dim1 Xs) (dim2 Xs))
    as (XX & Hrun & Hshape & Hent).
  - unfold broadcast_dim. rewrite H0, Nat.eqb_refl. reflexivity.
  - unfold broadcast_dim. rewrite H1, Nat.eqb_refl. reflexivity.
  - unfold broadcasts_to. rewrite Nat.eqb_refl. reflexivity.
  - lia.
  - lia.
  - exists XX. split; [exact Hrun|]. split; [exact Hshape|].
    intros b i j Hb Hi Hj. rewrite Hent.
    rewrite (proj2 (Nat.ltb_lt _ _) Hb).
    rewrite !bidx_lt by assumption.
    unfold corr_entry, scm_spec_entry, masked_entry, weight.
    apply sum_to_ext. intros f Hf.
    rewrite H0, H1. rewrite !bidx_lt by assumption. reflexivity.
Qed.

Lemma scm_compatible (Xs : ndarray3 complex) (Ms : option (ndarray3 complex)) :
  mask_compatible Xs Ms ->
  exists XX, scm Xs Ms = Ok XX /\
    shape3 XX = (dim2 Xs, dim0 Xs, dim0 Xs) /\
    forall b i j, (b < dim2 Xs)%nat -> (i < dim0 Xs)%nat -> (j < dim0 Xs)%nat ->
      at3 XX b i j = scm_spec_entry Xs Ms b i j.
Proof.
  intros Hc. rewrite scm_unfold.
  destruct Ms as [Ms|]; cbn [mask_or_ones].
  - apply scm_same_shape. exact Hc.
  - destruct (scm_same_shape Xs (ones3 (dim0 Xs) (dim1 Xs) (dim2 Xs)) eq_refl)
      as (XX & Hrun & Hshape & Hent).
    exists XX. split; [exact Hrun|]. split; [exact Hshape|].
    intros b i j Hb Hi Hj. rewrite (Hent b i j Hb Hi Hj). reflexivity.
Qed.

(** Complex arithmetic used below. *)
Lemma Cadd_0_l (z : complex) : Cadd C0 z = z.
Proof. apply complex_eq; simpl; ring. Qed.

Lemma Cconj_add (z w : complex) : Cconj (Cadd z w) = Cadd (Cconj z) (Cconj w).
Proof. apply complex_eq; simpl; ring. Qed.

Lemma Cconj_sum (n : nat) (f : nat -> complex) :
  Cconj (sum_to n f) = sum_to n (fun k => Cconj (f k)).
Proof.
  induction n as [|n IH]; simpl.
  - apply complex_eq; simpl; ring.
  - rewrite Cconj_add, IH. reflexivity.
Qed.

Lemma sum_to_zero (n : nat) (f : nat -> complex) :
  (forall k, (k < n)%nat -> f k = C0) -> sum_to n f = C0.
Proof.
  induction n as [|n IH]; intros Hz; simpl; [reflexivity|].
  rewrite IH by (intros; apply Hz; lia). rewrite Hz by lia.
  apply Cadd_0_l.
Qed.

(** The specification's entry is Hermitian in (i, j). *)
Lemma scm_spec_entry_hermitian (Xs : ndarray3 complex)
  (Ms : option (ndarray3 complex)) (b i j : nat) :
  scm_spec_entry Xs Ms b i j = Cconj (scm_spec_entry Xs Ms b j i).
Proof.
  unfold scm_spec_entry. rewrite Cconj_sum.
  apply sum_to_ext. intros f _.
  apply complex_eq; simpl; ring.
Qed.

(** C2.  For X of shape [C, F, B] and a mask of the same shape (or none,
    meaning weights 1), [scm] returns XX of shape [B, C, C] whose entry
    XX[b][i][j] is the sum over the frames f of
    (X[i][f][b] M[i][f][b]) conj(X[j][f][b] M[j][f][b]), not divided by the
    number of frames; and on the 2-channel, 4-frame, 1-bin signal of all
    ones without mask, bin 0 is [[4,4],[4,4]]. *)
Theorem scm_entries (Xs : ndarray3 complex) (Ms : option (ndarray3 complex))
  (Hmask : mask_compatible Xs Ms) :
  (exists XX, scm Xs Ms = Ok XX /\
     shape3 XX = (dim2 Xs, dim0 Xs, dim0 Xs) /\
     forall b i j, (b < dim2 Xs)%nat -> (i < dim0 Xs)%nat -> (j < dim0 Xs)%nat ->
       at3 XX b i j =
       sum_to (dim1 Xs)
         (fun f => Cmul (Cmul (at3 Xs i f b) (weight Ms i f b))
                        (Cconj (Cmul (at3 Xs j f b) (weight Ms j f b))))) /\
  (exists XX, scm ones_2x4x1 None = Ok XX /\
     shape3 XX = (1, 2, 2)%nat /\
     forall i j, (i < 2)%nat -> (j < 2)%nat -> at3 XX 0 i j = RtoC 4).
Proof.
  split.
  - exact (scm_compatible Xs Ms Hmask).
  - destruct (scm_compatible ones_2x4x1 None I) as (XX & Hrun & Hshape & Hent).
    exists XX. split; [exact Hrun|]. split; [exact Hshape|].
    intros i j Hi Hj.
    rewrite Hent by (cbn; lia).
    destruct (lt_2_cases i Hi) as [-> | ->];
      destruct (lt_2_cases j Hj) as [-> | ->];
      apply complex_eq; simpl; ring.
Qed.

(** C7.  For X and a mask of the same shape (or none), every bin of the
    result of [scm] is Hermitian: XX[b][i][j] = conj(XX[b][j][i]). *)
Theorem scm_hermitian (Xs : ndarray3 complex) (Ms : option (ndarray3 complex))
  (Hmask : mask_compatible Xs Ms) :
  exists XX, scm Xs Ms = Ok XX /\
    forall b i j, (b < dim2 Xs)%nat -> (i < dim0 Xs)%nat -> (j < dim0 Xs)%nat ->
      at3 XX b i j = Cconj (at3 XX b j i).
Proof.
  destruct (scm_compatible Xs Ms Hmask) as (XX & Hrun & _ & Hent).
  exists XX. split; [exact Hrun|].
  intros b i j Hb Hi Hj.
  rewrite (Hent b i j), (Hent b j i) by assumption.
  apply scm_spec_entry_hermitian.
Qed.

(** [mask_fits] in terms of the axis lengths. *)
Lemma mask_fits_spec (Xs Ms : ndarray3 complex) :
  mask_fits Xs Ms =
  (Nat.eqb (dim0 Ms) (dim0 Xs) || Nat.eqb (dim0 Ms) 1)
  && (Nat.eqb (dim1 Ms) (dim1 Xs) || Nat.eqb (dim1 Xs) 1 || Nat.eqb (dim1 Ms) 1).
Proof.
  unfold mask_fits, broadcast_dim, broadcasts_to.
  destruct (Nat.eqb_spec (dim0 Xs) (dim0 Ms)) as [E0|N0];
    destruct (Nat.eqb_spec (dim1 Xs) (dim1 Ms)) as [E1|N1];
    repeat match goal with
    | |- context [Nat.eqb ?a ?b] => destruct (Nat.eqb_spec a b)
    end; cbn; try reflexivity; try lia.
Qed.

(** C6 (as the code behaves).  With a mask given, [scm] raises exactly when
    X has at least one bin and the mask has fewer bins than X, or a number
    of channels that is neither that of X nor 1, or a number of frames that
    differs from that of X while neither is 1.  Every other mask is
    accepted, whatever its shape. *)
Theorem scm_mask_acceptance (Xs Ms : ndarray3 complex) :
  succeeds (scm Xs (Some Ms)) =
  Nat.eqb (dim2 Xs) 0
  || ((Nat.eqb (dim0 Ms) (dim0 Xs) || Nat.eqb (dim0 Ms) 1)
      && (Nat.eqb (dim1 Ms) (dim1 Xs) || Nat.eqb (dim1 Xs) 1
          || Nat.eqb (dim1 Ms) 1)
      && (dim2 Xs <=? dim2 Ms)%nat).
Proof.
  rewrite scm_unfold. cbn [mask_or_ones].
  rewrite <- mask_fits_spec.
  destruct (Nat.eqb_spec (dim2 Xs) 0) as [E|NE].
  - rewrite E. reflexivity.
  - cbn [orb].
    destruct (mask_fits Xs Ms) eqn:Hfit.
    + destruct (Nat.leb_spec (dim2 Xs) (dim2 Ms)) as [Hle|Hgt].
      * unfold mask_fits in Hfit.
        destruct (broadcast_dim (dim0 Xs) (dim0 Ms)) as [r|] eqn:Hr;
          [|discriminate].
        destruct (broadcast_dim (dim1 Xs) (dim1 Ms)) as [fr|] eqn:Hfr;
          [|discriminate].
        destruct (scm_loop_ok Xs Ms r fr (dim2 Xs) Hr Hfr Hfit (Nat.le_refl _) Hle)
          as (XX & Hrun & _).
        rewrite Hrun. reflexivity.
      * cbn [andb]. apply scm_loop_raises; [lia|right; exact Hgt].
    + cbn [andb]. apply scm_loop_raises; [lia|left; exact Hfit].
Qed.

(** C6 fails as stated: a mask with one channel, one frame and two bins is
    accepted for a signal with two channels, three frames and one bin. *)
Lemma scm_accepts_mismatched_mask :
  shape3 (ones3 (A:=complex) 1 1 2) <> shape3 (ones3 (A:=complex) 2 3 1) /\
  succeeds (scm (ones3 2 3 1) (Some (ones3 1 1 2))) = true.
Proof.
  split; [discriminate|reflexivity].
Qed.

(** ** [freefield] *)

(** The exponent the code builds is the specification's -j 2 pi k t / N. *)
Lemma freefield_exponent (N : Z) (k : nat) (t : R) :
  IZR N <> 0 ->
  Cdiv (Cadd C0 (Cmul (Cmul (Cmul (Cmul (Copp Cj) (RtoC 2)) (RtoC PI))
                            (RtoC (IZR (Z.of_nat k))))
                      (RtoC t)))
       (RtoC (IZR N))
  = Cmul (Copp Cj) (RtoC (2 * PI * INR k * t / IZR N)).
Proof.
  intros HN. rewrite INR_IZR_INZ.
  generalize (IZR (Z.of_nat k)) (IZR N) HN. intros x n Hn.
  apply complex_eq; unfold Cdiv, Cnorm2;
    cbn [Re Im Cadd Cmul Copp Cj RtoC C0]; field; exact Hn.
Qed.

(** [freefield] returns for every non-zero frame size, with
    [int(frame_size / 2) + 1] bins, each the outer product of the
    plane-wave responses. *)
Lemma freefield_returns (tdoas : list R) (N : Z) :
  (N <> 0)%Z ->
  exists XX, freefield tdoas N = Ok XX /\
    shape3 XX = (Z.to_nat (Z.quot N 2 + 1), length tdoas, length tdoas) /\
    forall k i j, (k < Z.to_nat (Z.quot N 2 + 1))%nat ->
      at3 XX k i j =
      Cmul (plane_wave N tdoas k i) (Cconj (plane_wave N tdoas k j)).
Proof.
  intros HN.
  assert (HNr : IZR N <> 0) by (apply not_0_IZR; exact HN).
  unfold freefield, matmul. cbn [rows cols amap2 as_column as_row arange len1].
  cbn [Nat.eqb bind]. unfold matmul3.
  cbn [dim0 dim1 dim2 expand_dims_2 expand_dims_1 conj3 rows cols amap2].
  unfold broadcast_dim. rewrite Nat.eqb_refl. cbn [bind Nat.eqb].
  eexists. split; [reflexivity|]. split; [reflexivity|].
  intros k i j Hk.
  cbn [at3 at2 at1 sum_to asarray].
  rewrite (bidx_lt _ _ Hk).
  cbn [add mul zero complex_Scalar at3 at2 at1 expand_dims_2 expand_dims_1
       conj3 amap2 as_column as_row arange asarray].
  rewrite !freefield_exponent by exact HNr.
  rewrite Cadd_0_l. reflexivity.
Qed.

Lemma plane_wave_zero (N : Z) (tdoas : list R) (k c : nat) :
  nth c tdoas 0 = 0 -> plane_wave N tdoas k c = C1.
Proof.
  intros Ht. unfold plane_wave. rewrite Ht.
  replace (2 * PI * INR k * 0 / IZR N) with 0 by (unfold Rdiv; ring).
  apply complex_eq; simpl.
  - replace (- 0 * 0 - - (1) * 0) with 0 by ring.
    replace (- 0 * 0 + - (1) * 0) with 0 by ring.
    rewrite exp_0, cos_0. ring.
  - replace (- 0 * 0 - - (1) * 0) with 0 by ring.
    replace (- 0 * 0 + - (1) * 0) with 0 by ring.
    rewrite exp_0, sin_0. ring.
Qed.

Lemma Cmul_1_conj_1 : Cmul C1 (Cconj C1) = C1.
Proof. apply complex_eq; simpl; ring. Qed.

Lemma nth_zeros (tdoas : list R) (c : nat) :
  Forall (fun t => t = 0) tdoas -> nth c tdoas 0 = 0.
Proof.
  intros Hall. revert c.
  induction Hall as [|t l Ht _ IH]; intros [|c]; simpl; auto.
Qed.

(** C5.  For a TDOA vector of length C and a positive frame size N,
    [freefield] returns XX of shape [B, C, C] with B = N/2 + 1 and
    XX[k][i][j] = A[k][i] conj(A[k][j]), A[k][c] = exp(-j 2 pi k tdoa[c] / N);
    with tdoas = [0, 0] and N = 4 there are 3 bins, each [[1,1],[1,1]]. *)
Theorem freefield_entries (tdoas : list R) (N : Z) (HN : (0 < N)%Z) :
  (exists XX, freefield tdoas N = Ok XX /\
     shape3 XX = (Z.to_nat (N / 2 + 1), length tdoas, length tdoas) /\
     forall k i j, (k < Z.to_nat (N / 2 + 1))%nat ->
       (i < length tdoas)%nat -> (j < length tdoas)%nat ->
       at3 XX k i j =
       Cmul (plane_wave N tdoas k i) (Cconj (plane_wave N tdoas k j))) /\
  (exists XX, freefield [0; 0] 4 = Ok XX /\
     shape3 XX = (3, 2, 2)%nat /\
     forall k i j, (k < 3)%nat -> (i < 2)%nat -> (j < 2)%nat ->
       at3 XX k i j = C1).
Proof.
  split.
  - destruct (freefield_returns tdoas N) as (XX & Hrun & Hshape & Hent); [lia|].
    rewrite Z.quot_div_nonneg in Hshape, Hent by lia.
    exists XX. split; [exact Hrun|]. split; [exact Hshape|].
    intros k i j Hk _ _. apply Hent. exact Hk.
  - destruct (freefield_returns [0; 0] 4) as (XX & Hrun & Hshape & Hent); [lia|].
    exists XX. split; [exact Hrun|]. split; [exact Hshape|].
    intros k i j Hk Hi Hj.
    rewrite Hent by exact Hk.
    rewrite !plane_wave_zero by (apply nth_zeros; repeat constructor).
    apply Cmul_1_conj_1.
Qed.

(** ** Phase of a complex number *)

Lemma sqrt_1_plus_sqr_pos (t : R) : 0 < sqrt (1 + t²).
Proof. apply sqrt_lt_R0. pose proof (Rle_0_sqr t). lra. Qed.

(** Modulus of (x, y) for x <> 0, with t = y / x. *)
Lemma modulus_by_slope (x y : R) :
  x <> 0 -> sqrt (x * x + y * y) = Rabs x * sqrt (1 + (y / x)²).
Proof.
  intros Hx.
  replace (x * x + y * y) with (x² * (1 + (y / x)²))
    by (unfold Rsqr; field; exact Hx).
  rewrite sqrt_mult.
  - rewrite sqrt_Rsqr_abs. reflexivity.
  - apply Rle_0_sqr.
  - pose proof (Rle_0_sqr (y / x)). lra.
Qed.

Lemma cos_shift_PI (a : R) : cos (a - PI) = - cos a.
Proof. rewrite cos_minus, cos_PI, sin_PI. ring. Qed.

Lemma sin_shift_PI (a : R) : sin (a - PI) = - sin a.
Proof. rewrite sin_minus, cos_PI, sin_PI. ring. Qed.

(** Polar form: [np.angle] is an argument of z, whatever the signs of its
    zero parts. *)
Lemma angle_polar (z : cfloat) :
  Re z = Cabs z * cos (angle z) /\ Im z = Cabs z * sin (angle z).
Proof.
  destruct z as [[x y] sx sy].
  unfold angle, arctan2, real_part, imag_part, Cabs, Cnorm2.
  cbn [Re Im value re_signbit im_signbit fval signbit].
  destruct (Rlt_dec 0 x) as [Hpos|Hnpos].
  - rewrite modulus_by_slope by lra.
    rewrite cos_atan, sin_atan, Rabs_right by lra.
    pose proof (sqrt_1_plus_sqr_pos (y / x)) as Hs.
    split; field; lra.
  - destruct (Rlt_dec x 0) as [Hneg|Hnneg].
    + rewrite modulus_by_slope by lra.
      rewrite Rabs_left by lra.
      pose proof (sqrt_1_plus_sqr_pos (y / x)) as Hs.
      destruct (Rlt_dec 0 y) as [Hy|Hy].
      * rewrite neg_cos, neg_sin, cos_atan, sin_atan. split; field; lra.
      * destruct (Rlt_dec y 0) as [Hy'|Hy'].
        -- rewrite cos_shift_PI, sin_shift_PI, cos_atan, sin_atan.
           split; field; lra.
        -- assert (y = 0) by lra. subst y.
           replace (0 / x) with 0 by (field; lra).
           rewrite Rsqr_0, Rplus_0_r, sqrt_1.
           destruct sy.
           ++ rewrite cos_neg, sin_neg, cos_PI, sin_PI. split; ring.
           ++ rewrite cos_PI, sin_PI. split; ring.
    + assert (Hx : x = 0) by lra. subst x.
      replace (0 * 0 + y * y) with (y²) by (unfold Rsqr; ring).
      rewrite sqrt_Rsqr_abs.
      destruct (Rlt_dec 0 y) as [Hy|Hy].
      * rewrite cos_PI2, sin_PI2, Rabs_right by lra. split; ring.
      * destruct (Rlt_dec y 0) as [Hy'|Hy'].
        -- rewrite cos_neg, sin_neg, cos_PI2, sin_PI2, Rabs_left by lra.
           split; ring.
        -- assert (y = 0) by lra. subst y.
           rewrite Rabs_R0. split; ring.
Qed.

Lemma phase_components (z : cfloat) :
  phase z = mkC (cos (angle z)) (sin (angle z)).
Proof.
  unfold phase. generalize (angle z). intros t.
  apply complex_eq; cbn [Re Im Cexp Cmul Cj RtoC].
  - replace (0 * t - 1 * 0) with 0 by ring.
    replace (0 * 0 + 1 * t) with t by ring.
    rewrite exp_0. ring.
  - replace (0 * t - 1 * 0) with 0 by ring.
    replace (0 * 0 + 1 * t) with t by ring.
    rewrite exp_0. ring.
Qed.

(** The factor [np.exp(1j * np.angle(z))] has modulus 1: it is never zero. *)
Lemma phase_unit (z : cfloat) : Cnorm2 (phase z) = 1.
Proof.
  rewrite phase_components. unfold Cnorm2. cbn [Re Im].
  pose proof (sin2_cos2 (angle z)) as H. unfold Rsqr in H. lra.
Qed.

(** Dividing by a unit-modulus factor is multiplying by its conjugate. *)
Lemma Cdiv_unit (z p : complex) :
  Cnorm2 p = 1 -> Cdiv z p = Cmul z (Cconj p).
Proof.
  intros Hp. unfold Cdiv. rewrite Hp.
  apply complex_eq; cbn [Re Im Cmul Cconj]; field.
Qed.

(** A number divided by its own phase factor is its modulus. *)
Lemma Cdiv_own_phase (z : cfloat) : Cdiv z (phase z) = RtoC (Cabs z).
Proof.
  rewrite Cdiv_unit by apply phase_unit.
  rewrite phase_components.
  destruct (angle_polar z) as [Hre Him].
  pose proof (sin2_cos2 (angle z)) as H. unfold Rsqr in H.
  apply complex_eq; cbn [Re Im Cmul Cconj RtoC].
  - rewrite Hre at 1. rewrite Him at 1.
    replace (Cabs z * cos (angle z) * cos (angle z)
             - Cabs z * sin (angle z) * - sin (angle z))
      with (Cabs z * (sin (angle z) * sin (angle z)
                      + cos (angle z) * cos (angle z))) by ring.
    rewrite H. ring.
  - rewrite Hre at 1. rewrite Him at 1. ring.
Qed.





Lemma Cabs_nonneg (z : complex) : 0 <= Cabs z.
Proof. unfold Cabs. apply sqrt_pos. Qed.

(** ** [steering] *)

(** When the decomposition returns and there is at least one channel,
    [steering] returns the last eigenvector of every bin divided by the
    phase factor of its first component. *)
Lemma steering_returns
  (eigh : ndarray3 complex -> result (ndarray2 R * ndarray3 cfloat))
  (XXs : ndarray3 complex)
  (w : ndarray2 R) (V : ndarray3 cfloat) :
  eigh XXs = Ok (w, V) ->
  eigh_shapes XXs w V ->
  (1 <= dim1 XXs)%nat ->
  exists vs, steering eigh XXs = Ok vs /\
    shape2 vs = (dim0 XXs, dim1 XXs) /\
    forall b i, (b < dim0 XXs)%nat ->
      at2 vs b i =
      Cdiv (at3 V b i (dim1 XXs - 1)) (phase (at3 V b 0 (dim1 XXs - 1))).
Proof.
  intros He (Hsq & _ & HV) HC.
  injection HV as H0 H1 H2.
  unfold steering. rewrite He. cbn [bind snd].
  unfold last_column.
  rewrite (proj2 (Nat.ltb_lt 0 (dim2 V))) by lia. cbn [bind].
  unfold first_column. cbn [rows cols].
  rewrite (proj2 (Nat.ltb_lt 0 (dim1 V))) by lia. cbn [bind].
  unfold idivide, broadcasts_to.
  cbn [rows cols amap2 tile_columns len1].
  rewrite H1, !Nat.eqb_refl. cbn [orb andb].
  eexists. split; [reflexivity|].
  split; [unfold shape2; cbn [rows cols]; congruence|].
  intros b i Hb. cbn [at2 at1].
  rewrite bidx_lt by lia.
  rewrite H2, <- Hsq. reflexivity.
Qed.

(** C3.  Whenever the decomposition of the stack returns (as it does on
    Hermitian positive-semidefinite matrices) and there is at least one
    channel, every vector of the result of [steering] is the selected
    eigenvector divided by the phase factor of its own first component, a
    factor of modulus 1; the first channel of every bin is then the modulus
    of that component, so it has phase zero: its imaginary part is 0 and
    its real part is non-negative. *)
Theorem steering_first_channel_phase_zero
  (eigh : ndarray3 complex -> result (ndarray2 R * ndarray3 cfloat))
  (XXs : ndarray3 complex)
  (w : ndarray2 R) (V : ndarray3 cfloat)
  (He : eigh XXs = Ok (w, V))
  (Hshapes : eigh_shapes XXs w V)
  (HC : (1 <= dim1 XXs)%nat) :
  exists vs, steering eigh XXs = Ok vs /\
    shape2 vs = (dim0 XXs, dim1 XXs) /\
    forall b, (b < dim0 XXs)%nat ->
      let v0 := at3 V b 0 (dim1 XXs - 1) in
      Cnorm2 (phase v0) = 1 /\
      (forall i, (i < dim1 XXs)%nat ->
         at2 vs b i = Cdiv (at3 V b i (dim1 XXs - 1)) (phase v0)) /\
      at2 vs b 0 = RtoC (Cabs v0) /\
      Im (at2 vs b 0) = 0 /\ 0 <= Re (at2 vs b 0).
Proof.
  destruct (steering_returns eigh XXs w V He Hshapes HC) as (vs & Hrun & Hsh & Hent).
  exists vs. split; [exact Hrun|]. split; [exact Hsh|].
  intros b Hb v0.
  assert (Hfirst : at2 vs b 0 = RtoC (Cabs v0)).
  { rewrite (Hent b 0%nat Hb). apply Cdiv_own_phase. }
  split; [apply phase_unit|].
  split; [intros i _; apply (Hent b i Hb)|].
  split; [exact Hfirst|].
  rewrite Hfirst. cbn [Re Im RtoC].
  split; [reflexivity|apply Cabs_nonneg].
Qed.



Lemma sum_to_scale (n : nat) (f : nat -> complex) (q : complex) :
  sum_to n (fun j => Cmul (f j) q) = Cmul (sum_to n f) q.
Proof.
  induction n as [|n IH]; simpl.
  - apply complex_eq; simpl; ring.
  - rewrite IH. apply complex_eq; simpl; ring.
Qed.

Lemma Cmul_assoc (x y z : complex) : Cmul x (Cmul y z) = Cmul (Cmul x y) z.
Proof. apply complex_eq; simpl; ring. Qed.

(** C4.  When the decomposition returns eigenvalues in ascending order with
    their eigenvectors as columns (numpy's contract on Hermitian input),
    [steering] returns at each bin the last column divided by its phase
    factor; its eigenvalue, the last one, is the largest of the bin, and
    the returned vector is an eigenvector of XX[b] for it. *)
Theorem steering_selects_largest_eigenvalue
  (eigh : ndarray3 complex -> result (ndarray2 R * ndarray3 cfloat))
  (XXs : ndarray3 complex)
  (w : ndarray2 R) (V : ndarray3 cfloat)
  (He : eigh XXs = Ok (w, V))
  (Hcontract : eigh_contract XXs w V)
  (HC : (1 <= dim1 XXs)%nat) :
  exists vs, steering eigh XXs = Ok vs /\
    forall b, (b < dim0 XXs)%nat ->
      let last := (dim1 XXs - 1)%nat in
      (forall i, (i < dim1 XXs)%nat ->
         at2 vs b i = Cdiv (at3 V b i last) (phase (at3 V b 0 last))) /\
      (forall k, (k < dim1 XXs)%nat -> at2 w b k <= at2 w b last) /\
      (forall i, (i < dim1 XXs)%nat ->
         sum_to (dim2 XXs) (fun j => Cmul (at3 XXs b i j) (at2 vs b j))
         = Cmul (RtoC (at2 w b last)) (at2 vs b i)).
Proof.
  destruct Hcontract as (Hshapes & Hbins).
  destruct (steering_returns eigh XXs w V He Hshapes HC) as (vs & Hrun & _ & Hent).
  exists vs. split; [exact Hrun|].
  intros b Hb last.
  destruct (Hbins b Hb) as (Hasc & Heig).
  split; [intros i _; apply Hent; exact Hb|].
  split; [intros k Hk; apply Hasc; subst last; lia|].
  intros i Hi.
  specialize (Heig last ltac:(subst last; lia) i Hi).
  rewrite (sum_to_ext _ _
             (fun j => Cmul (Cmul (at3 XXs b i j) (at3 V b j last))
                            (Cconj (phase (at3 V b 0 last))))).
  - rewrite sum_to_scale, Heig, (Hent b i Hb).
    rewrite Cdiv_unit by apply phase_unit.
    symmetry. apply Cmul_assoc.
  - intros j _. rewrite (Hent b j Hb).
    rewrite Cdiv_unit by apply phase_unit.
    apply Cmul_assoc.
Qed.

(** ** Degenerate inputs *)

(** C9.  Degenerate inputs do not raise: [scm] on a signal whose masked
    entries are all zero returns the zero matrix at every bin, [freefield]
    on a zero TDOA vector returns the all-ones matrix at every bin, and
    [rotmat 0 0 0] returns the 3x3 identity. *)
Theorem degenerate_inputs_return
  (Xs : ndarray3 complex) (Ms : option (ndarray3 complex))
  (tdoas : list R) (N : Z)
  (Hmask : mask_compatible Xs Ms)
  (Hzero : forall i f b,
      (i < dim0 Xs)%nat -> (f < dim1 Xs)%nat -> (b < dim2 Xs)%nat ->
      Cmul (at3 Xs i f b) (weight Ms i f b) = C0)
  (HN : (0 < N)%Z)
  (Htdoas : Forall (fun t => t = 0) tdoas) :
  (exists XX, scm Xs Ms = Ok XX /\
     shape3 XX = (dim2 Xs, dim0 Xs, dim0 Xs) /\
     forall b i j, (b < dim2 Xs)%nat -> (i < dim0 Xs)%nat -> (j < dim0 Xs)%nat ->
       at3 XX b i j = C0) /\
  (exists XX, freefield tdoas N = Ok XX /\
     shape3 XX = (Z.to_nat (N / 2 + 1), length tdoas, length tdoas) /\
     forall k i j, (k < Z.to_nat (N / 2 + 1))%nat ->
       (i < length tdoas)%nat -> (j < length tdoas)%nat ->
       at3 XX k i j = C1) /\
  (exists M, rotmat 0 0 0 = Ok M /\ array2_eq M (eye 3)).
Proof.
  split; [|split].
  - destruct (scm_compatible Xs Ms Hmask) as (XX & Hrun & Hshape & Hent).
    exists XX. split; [exact Hrun|]. split; [exact Hshape|].
    intros b i j Hb Hi Hj. rewrite (Hent b i j Hb Hi Hj).
    unfold scm_spec_entry. apply sum_to_zero. intros f Hf.
    rewrite (Hzero i f b Hi Hf Hb). apply complex_eq; simpl; ring.
  - destruct (freefield_returns tdoas N) as (XX & Hrun & Hshape & Hent); [lia|].
    rewrite Z.quot_div_nonneg in Hshape, Hent by lia.
    exists XX. split; [exact Hrun|]. split; [exact Hshape|].
    intros k i j Hk _ _. rewrite (Hent k i j Hk).
    rewrite !plane_wave_zero by (apply nth_zeros; exact Htdoas).
    apply Cmul_1_conj_1.
  - destruct (rotmat_returns 0 0 0) as (M & HM & E).
    destruct E as [Hshape e00 e01 e02 e10 e11 e12 e20 e21 e22].
    exists M. split; [exact HM|].
    rewrite sin_0, cos_0 in *.
    split; [exact Hshape|].
    injection Hshape as Hr Hc. rewrite Hr, Hc.
    intros i j Hi Hj.
    destruct (lt_3_cases i Hi) as [->|[->| ->]];
      destruct (lt_3_cases j Hj) as [->|[->| ->]];
      cbn [eye at2 Nat.eqb one zero R_Scalar];
      match goal with |- ?l = _ =>
        match goal with Hl : l = _ |- _ => rewrite Hl; ring end end.
Qed.

(** ** The theorems at concrete inputs *)

Lemma scm_entries_witness :
  mask_compatible signal_2x2x1 (Some mask_2x2x1) /\
  exists XX, scm signal_2x2x1 (Some mask_2x2x1) = Ok XX /\
    shape3 XX = (1, 2, 2)%nat /\ at3 XX 0 0 1 = mkC 0 (-1).
Proof.
  split; [reflexivity|].
  destruct (scm_entries signal_2x2x1 (Some mask_2x2x1) eq_refl)
    as ((XX & Hrun & Hshape & Hent) & _).
  exists XX. split; [exact Hrun|]. split; [exact Hshape|].
  rewrite Hent by (cbn; lia).
  apply complex_eq; simpl; ring.
Defined.

Lemma scm_hermitian_witness :
  mask_compatible signal_2x2x1 (Some mask_2x2x1) /\
  exists XX, scm signal_2x2x1 (Some mask_2x2x1) = Ok XX /\
    at3 XX 0 0 1 = Cconj (at3 XX 0 1 0).
Proof.
  split; [reflexivity|].
  destruct (scm_hermitian signal_2x2x1 (Some mask_2x2x1) eq_refl)
    as (XX & Hrun & Hherm).
  exists XX. split; [exact Hrun|].
  apply Hherm; cbn; lia.
Defined.

Lemma freefield_entries_witness :
  (0 < 8)%Z /\
  exists XX, freefield [0; 1] 8 = Ok XX /\
    shape3 XX = (5, 2, 2)%nat /\
    at3 XX 2 1 0 = Cmul (plane_wave 8 [0; 1] 2 1) (Cconj (plane_wave 8 [0; 1] 2 0)).
Proof.
  split; [reflexivity|].
  destruct (freefield_entries [0; 1] 8 eq_refl)
    as ((XX & Hrun & Hshape & Hent) & _).
  exists XX. split; [exact Hrun|]. split; [exact Hshape|].
  apply Hent; cbn; lia.
Defined.

Lemma steering_first_channel_phase_zero_witness :
  eigh_fours fours_2x2 = Ok (eigenvalues_0_8, vectors_fours) /\
  eigh_shapes fours_2x2 eigenvalues_0_8 vectors_fours /\
  (1 <= dim1 fours_2x2)%nat /\
  exists vs, steering eigh_fours fours_2x2 = Ok vs /\
    at2 vs 0 0 = RtoC (Cabs (mkC 0 (/ sqrt 2))) /\
    Im (at2 vs 0 0) = 0 /\ 0 <= Re (at2 vs 0 0).
Proof.
  split; [reflexivity|].
  split; [repeat split|].
  split; [cbn; lia|].
  destruct (steering_first_channel_phase_zero eigh_fours fours_2x2
              eigenvalues_0_8 vectors_fours eq_refl)
    as (vs & Hrun & _ & Hph).
  - repeat split.
  - cbn; lia.
  - exists vs. split; [exact Hrun|].
    destruct (Hph 0%nat) as (_ & _ & Hmod & Hzero); [cbn; lia|].
    split; [exact Hmod|exact Hzero].
Defined.


Lemma eigh_contract_diag_1_2 :
  eigh_contract diag_1_2 eigenvalues_1_2 basis_2.
Proof.
  split; [repeat split|].
  intros b Hb. cbn in Hb. assert (b = 0%nat) as -> by lia.
  split.
  - intros k k' Hle Hk'. cbn in Hk'.
    destruct (lt_2_cases k' Hk') as [-> | ->];
      destruct k as [|[|k]]; try lia; cbn; lra.
  - intros k Hk i Hi. cbn in Hk, Hi.
    destruct (lt_2_cases k Hk) as [-> | ->];
      destruct (lt_2_cases i Hi) as [-> | ->];
      apply complex_eq; simpl; ring.
Defined.

Lemma steering_selects_largest_eigenvalue_witness :
  eigh_diag_1_2 diag_1_2 = Ok (eigenvalues_1_2, basis_2) /\
  eigh_contract diag_1_2 eigenvalues_1_2 basis_2 /\
  (1 <= dim1 diag_1_2)%nat /\
  exists vs, steering eigh_diag_1_2 diag_1_2 = Ok vs /\
    sum_to 2 (fun j => Cmul (at3 diag_1_2 0 1 j) (at2 vs 0 j))
    = Cmul (RtoC 2) (at2 vs 0 1).
Proof.
  split; [reflexivity|].
  split; [exact eigh_contract_diag_1_2|].
  split; [cbn; lia|].
  destruct (steering_selects_largest_eigenvalue eigh_diag_1_2 diag_1_2
              eigenvalues_1_2 basis_2 eq_refl eigh_contract_diag_1_2)
    as (vs & Hrun & Hbin).
  - cbn; lia.
  - exists vs. split; [exact Hrun|].
    destruct (Hbin 0%nat) as (_ & _ & Heig); [cbn; lia|].
    apply (Heig 1%nat). cbn; lia.
Defined.

Lemma degenerate_inputs_return_witness :
  mask_compatible (zeros3 2 3 2) None /\
  (0 < 4)%Z /\
  Forall (fun t => t = 0) [0; 0] /\
  (exists XX, scm (zeros3 2 3 2) None = Ok XX /\ at3 XX 1 0 1 = C0) /\
  (exists XX, freefield [0; 0] 4 = Ok XX /\ at3 XX 2 0 1 = C1).
Proof.
  split; [exact I|].
  split; [reflexivity|].
  split; [repeat constructor|].
  destruct (degenerate_inputs_return (zeros3 2 3 2) None [0; 0] 4 I)
    as ((XX & Hrun & _ & Hent) & (YY & Hrun' & _ & Hent') & _).
  - intros i f b _ _ _. apply complex_eq; simpl; ring.
  - reflexivity.
  - repeat constructor.
  - split.
    + exists XX. split; [exact Hrun|]. apply Hent; cbn; lia.
    + exists YY. split; [exact Hrun'|]. apply Hent'; cbn; lia.
Defined.

(** * Further properties of the code *)

(** ** Sums of complex numbers *)


Lemma Cmul_1_r (z : complex) : Cmul z C1 = z.
Proof. apply complex_eq; simpl; ring. Qed.

Lemma sum_to_add (n : nat) (f g : nat -> complex) :
  sum_to n (fun k => Cadd (f k) (g k)) = Cadd (sum_to n f) (sum_to n g).
Proof.
  induction n as [|n IH]; simpl.
  - apply complex_eq; simpl; ring.
  - rewrite IH. apply complex_eq; simpl; ring.
Qed.

Lemma sum_to_scale_l (n : nat) (f : nat -> complex) (q : complex) :
  sum_to n (fun j => Cmul q (f j)) = Cmul q (sum_to n f).
Proof.
  induction n as [|n IH]; simpl.
  - apply complex_eq; simpl; ring.
  - rewrite IH. apply complex_eq; simpl; ring.
Qed.

Lemma sum_to_swap (n m : nat) (f : nat -> nat -> complex) :
  sum_to n (fun i => sum_to m (fun j => f i j))
  = sum_to m (fun j => sum_to n (fun i => f i j)).
Proof.
  induction n as [|n IH]; simpl.
  - symmetry. apply sum_to_zero. intros; reflexivity.
  - rewrite IH. symmetry. apply sum_to_add.
Qed.

Lemma sum_to_RtoC (n : nat) (r : nat -> R) :
  sum_to n (fun k => RtoC (r k)) = RtoC (sum_to n r).
Proof.
  induction n as [|n IH]; simpl; [reflexivity|].
  rewrite IH. apply complex_eq; simpl; ring.
Qed.

Lemma sum_to_nonneg (n : nat) (r : nat -> R) :
  (forall k, (k < n)%nat -> 0 <= r k) -> 0 <= sum_to n r.
Proof.
  induction n as [|n IH]; intros Hr; simpl; [lra|].
  pose proof (IH (fun k Hk => Hr k (Nat.lt_lt_succ_r _ _ Hk))).
  pose proof (Hr n (Nat.lt_succ_diag_r n)). lra.
Qed.

Lemma Cnorm2_nonneg (z : complex) : 0 <= Cnorm2 z.
Proof. unfold Cnorm2. nra. Qed.

Lemma Cmul_conj_self (z : complex) : Cmul z (Cconj z) = RtoC (Cnorm2 z).
Proof. apply complex_eq; unfold Cnorm2; simpl; ring. Qed.

(** ** [scm]: accepted masks of another shape *)

Lemma mask_fits_broadcast (Xs Ms : ndarray3 complex) :
  mask_fits Xs Ms = true ->
  broadcast_dim (dim0 Xs) (dim0 Ms) = Ok (dim0 Xs) /\
  broadcast_dim (dim1 Xs) (dim1 Ms) = Ok (broadcast_frames Xs Ms).
Proof.
  unfold mask_fits, broadcast_dim, broadcasts_to, broadcast_frames.
  repeat match goal with
  | |- context [Nat.eqb ?a ?b] => destruct (Nat.eqb_spec a b)
  end; cbn; intros H; try discriminate; split; try reflexivity;
    try (f_equal; lia).
Qed.

(** X1.  A mask of another shape that numpy accepts is stretched: when the
    mask has the channels of X or one channel, the frames of X or one frame
    (or X has one frame), and at least the bins of X, [scm] returns shape
    [B, C, C] and entry (b, i, j) is the sum, over the stretched number of
    frames, of the products of the stretched entries of X and M. *)
Theorem scm_stretched_mask_entries (Xs Ms : ndarray3 complex)
  (Hfit : mask_fits Xs Ms = true)
  (Hbins : (dim2 Xs <= dim2 Ms)%nat) :
  exists XX, scm Xs (Some Ms) = Ok XX /\
    shape3 XX = (dim2 Xs, dim0 Xs, dim0 Xs) /\
    forall b i j, (b < dim2 Xs)%nat -> (i < dim0 Xs)%nat -> (j < dim0 Xs)%nat ->
      at3 XX b i j =
      sum_to (broadcast_frames Xs Ms)
        (fun f =>
           Cmul (Cmul (at3 Xs i (bidx (dim1 Xs) f) b)
                      (at3 Ms (bidx (dim0 Ms) i) (bidx (dim1 Ms) f) b))
                (Cconj (Cmul (at3 Xs j (bidx (dim1 Xs) f) b)
                             (at3 Ms (bidx (dim0 Ms) j) (bidx (dim1 Ms) f) b)))).
Proof.
  destruct (mask_fits_broadcast Xs Ms Hfit) as (Hr & Hfr).
  assert (Hb : broadcasts_to (dim0 Xs) (dim0 Xs) = true)
    by (unfold broadcasts_to; rewrite Nat.eqb_refl; reflexivity).
  destruct (scm_loop_ok Xs Ms _ _ (dim2 Xs) Hr Hfr Hb (Nat.le_refl _) Hbins)
    as (XX & Hrun & Hshape & Hent).
  exists XX. split; [exact Hrun|]. split; [exact Hshape|].
  intros b i j Hlt Hi Hj. rewrite Hent.
  rewrite (proj2 (Nat.ltb_lt _ _) Hlt).
  unfold corr_entry, masked_entry.
  rewrite !(bidx_lt _ _ Hi), !(bidx_lt _ _ Hj). reflexivity.
Qed.

Lemma scm_stretched_mask_entries_witness :
  mask_fits signal_2x2x1 mask_1x2x1 = true /\
  (dim2 signal_2x2x1 <= dim2 mask_1x2x1)%nat /\
  exists XX, scm signal_2x2x1 (Some mask_1x2x1) = Ok XX /\
    at3 XX 0 0 1 = mkC 0 (-5).
Proof.
  split; [reflexivity|]. split; [cbn; lia|].
  destruct (scm_stretched_mask_entries signal_2x2x1 mask_1x2x1 eq_refl)
    as (XX & Hrun & _ & Hent).
  - cbn; lia.
  - exists XX. split; [exact Hrun|].
    rewrite Hent by (cbn; lia).
    apply complex_eq; simpl; ring.
Defined.

(** ** [scm]: which exception *)

Lemma for_range_raise_mono {S : Type} (body : nat -> S -> result S) (s : S)
  (e : error) (n m : nat) :
  for_range n body s = Raise e -> (n <= m)%nat ->
  for_range m body s = Raise e.
Proof.
  intros Hn Hle. induction Hle as [|m _ IH]; [exact Hn|].
  rewrite for_range_S, IH. reflexivity.
Qed.

Lemma scm_body_index_error (Xs Ms XXs : ndarray3 complex) (b : nat) :
  (b < dim2 Xs)%nat -> (dim2 Ms <= b)%nat ->
  scm_body Xs Ms b XXs = Raise IndexError.
Proof.
  intros HbX HbM. unfold scm_body, getbin.
  rewrite (proj2 (Nat.ltb_lt _ _) HbX). cbn [bind].
  rewrite (proj2 (Nat.ltb_ge _ _) HbM). reflexivity.
Qed.

Lemma scm_body_value_error (Xs Ms XXs : ndarray3 complex) (b : nat) :
  (b < dim2 Xs)%nat -> (b < dim2 Ms)%nat ->
  shape3 XXs = (dim2 Xs, dim0 Xs, dim0 Xs) ->
  mask_fits Xs Ms = false ->
  scm_body Xs Ms b XXs = Raise ValueError.
Proof.
  intros HbX HbM Hsh Hbad. injection Hsh as H0 H1 H2.
  unfold scm_body, getbin.
  rewrite (proj2 (Nat.ltb_lt _ _) HbX), (proj2 (Nat.ltb_lt _ _) HbM).
  cbn [bind]. unfold multiply. cbn [rows cols].
  unfold mask_fits in Hbad. unfold broadcast_dim in *.
  destruct (Nat.eqb (dim0 Xs) (dim0 Ms)); cbn [bind];
    destruct (Nat.eqb (dim0 Xs) 1); cbn [bind];
    destruct (Nat.eqb (dim0 Ms) 1); cbn [bind]; try reflexivity;
    destruct (Nat.eqb (dim1 Xs) (dim1 Ms)); cbn [bind];
    destruct (Nat.eqb (dim1 Xs) 1); cbn [bind];
    destruct (Nat.eqb (dim1 Ms) 1); cbn [bind]; try reflexivity;
    unfold matmul; cbn [rows cols transpose conj2];
    rewrite Nat.eqb_refl; cbn [bind]; unfold setbin; cbn [rows cols];
    rewrite H0, H1, (proj2 (Nat.ltb_lt _ _) HbX), Hbad; reflexivity.
Qed.

(** X2.  The exception [scm] raises on a signal with at least one bin: a
    mask without bins gives IndexError; otherwise a mask whose channel or
    frame axis cannot be stretched gives ValueError, raised at the first
    bin; otherwise a mask with fewer bins than X gives IndexError, raised at
    the first missing bin. *)
Theorem scm_exception (Xs Ms : ndarray3 complex)
  (Hbins : (0 < dim2 Xs)%nat) :
  (dim2 Ms = 0%nat -> scm Xs (Some Ms) = Raise IndexError) /\
  ((0 < dim2 Ms)%nat -> mask_fits Xs Ms = false ->
   scm Xs (Some Ms) = Raise ValueError) /\
  (mask_fits Xs Ms = true -> (dim2 Ms < dim2 Xs)%nat ->
   scm Xs (Some Ms) = Raise IndexError).
Proof.
  rewrite scm_unfold. cbn [mask_or_ones].
  split; [|split].
  - intros Hz.
    apply (for_range_raise_mono _ _ _ 1); [|lia].
    rewrite for_range_S. cbn [for_range seq fold_left bind].
    apply scm_body_index_error; lia.
  - intros Hpos Hbad.
    apply (for_range_raise_mono _ _ _ 1); [|lia].
    rewrite for_range_S. cbn [for_range seq fold_left bind].
    apply scm_body_value_error; try assumption; reflexivity.
  - intros Hfit Hlt.
    destruct (mask_fits_broadcast Xs Ms Hfit) as (Hr & Hfr).
    assert (Hb : broadcasts_to (dim0 Xs) (dim0 Xs) = true)
      by (unfold broadcasts_to; rewrite Nat.eqb_refl; reflexivity).
    destruct (scm_loop_ok Xs Ms _ _ (dim2 Ms) Hr Hfr Hb) as (XX & Hrun & _);
      [lia|lia|].
    apply (for_range_raise_mono _ _ _ (S (dim2 Ms))); [|lia].
    rewrite for_range_S, Hrun. cbn [bind].
    apply scm_body_index_error; lia.
Qed.

Lemma scm_exception_witness :
  (0 < dim2 signal_2x2x1)%nat /\
  scm signal_2x2x1 (Some (ones3 3 2 1)) = Raise ValueError /\
  scm signal_2x2x1 (Some (ones3 2 2 0)) = Raise IndexError.
Proof.
  split; [cbn; lia|].
  destruct (scm_exception signal_2x2x1 (ones3 3 2 1)) as (_ & Hv & _);
    [cbn; lia|].
  destruct (scm_exception signal_2x2x1 (ones3 2 2 0)) as (Hi & _);
    [cbn; lia|].
  split; [apply Hv; [cbn; lia|reflexivity]|apply Hi; reflexivity].
Defined.

(** ** [scm]: the matrices are positive semidefinite *)

(** A double sum of products factors into the product of the sums. *)
Lemma sum_to_product (n m : nat) (p q : nat -> complex) :
  sum_to n (fun i => sum_to m (fun j => Cmul (p i) (q j)))
  = Cmul (sum_to n p) (sum_to m q).
Proof.
  rewrite <- sum_to_scale. apply sum_to_ext. intros i _.
  apply sum_to_scale_l.
Qed.

(** The quadratic form of a sum of outer products a_f a_f^H is the sum of
    the squared moduli of the projections of v on the a_f. *)
Lemma quadratic_form_outer (n nf : nat) (a : nat -> nat -> complex)
  (v : nat -> complex) :
  sum_to n (fun i =>
    sum_to n (fun j =>
      Cmul (Cmul (Cconj (v i))
                 (sum_to nf (fun f => Cmul (a i f) (Cconj (a j f)))))
           (v j)))
  = RtoC (sum_to nf (fun f =>
            Cnorm2 (sum_to n (fun i => Cmul (Cconj (v i)) (a i f))))).
Proof.
  rewrite <- sum_to_RtoC.
  transitivity
    (sum_to n (fun i => sum_to nf (fun f => sum_to n (fun j =>
       Cmul (Cmul (Cconj (v i)) (a i f)) (Cmul (Cconj (a j f)) (v j)))))).
  { apply sum_to_ext. intros i _. rewrite sum_to_swap.
    apply sum_to_ext. intros j _.
    rewrite <- sum_to_scale_l, <- sum_to_scale.
    apply sum_to_ext. intros f _. apply complex_eq; simpl; ring. }
  rewrite sum_to_swap. apply sum_to_ext. intros f _.
  rewrite sum_to_product, <- Cmul_conj_self. f_equal.
  rewrite Cconj_sum. apply sum_to_ext. intros j _.
  apply complex_eq; simpl; ring.
Qed.

(** X3.  Every bin of the result of [scm] is positive semidefinite: for
    every vector v of channel weights, v^H . XX[b] . v is a real number
    that is not negative (it is the accumulated energy of the masked
    signal projected on v). *)
Theorem scm_positive_semidefinite (Xs : ndarray3 complex)
  (Ms : option (ndarray3 complex)) (v : nat -> complex)
  (Hmask : mask_compatible Xs Ms) :
  exists XX, scm Xs Ms = Ok XX /\
    forall b, (b < dim2 Xs)%nat ->
      Im (quadratic_form XX b (dim0 Xs) v) = 0 /\
      0 <= Re (quadratic_form XX b (dim0 Xs) v).
Proof.
  destruct (scm_compatible Xs Ms Hmask) as (XX & Hrun & _ & Hent).
  exists XX. split; [exact Hrun|].
  intros b Hb. unfold quadratic_form.
  rewrite (sum_to_ext _ _
     (fun i => sum_to (dim0 Xs) (fun j =>
        Cmul (Cmul (Cconj (v i)) (scm_spec_entry Xs Ms b i j)) (v j)))).
  - unfold scm_spec_entry.
    rewrite (quadratic_form_outer (dim0 Xs) (dim1 Xs)
               (fun i f => Cmul (at3 Xs i f b) (weight Ms i f b)) v).
    cbn [Re Im RtoC]. split; [reflexivity|].
    apply sum_to_nonneg. intros f _. apply Cnorm2_nonneg.
  - intros i Hi. apply sum_to_ext. intros j Hj.
    rewrite (Hent b i j Hb Hi Hj). reflexivity.
Qed.

Lemma scm_positive_semidefinite_witness :
  mask_compatible signal_2x2x1 (Some mask_2x2x1) /\
  exists XX, scm signal_2x2x1 (Some mask_2x2x1) = Ok XX /\
    0 <= Re (quadratic_form XX 0 2 (fun i => if Nat.eqb i 0 then Cj else C1)).
Proof.
  split; [reflexivity|].
  destruct (scm_positive_semidefinite signal_2x2x1 (Some mask_2x2x1)
              (fun i => if Nat.eqb i 0 then Cj else C1) eq_refl)
    as (XX & Hrun & Hpsd).
  exists XX. split; [exact Hrun|].
  apply (Hpsd 0%nat). cbn; lia.
Defined.

(** X4.  The diagonal of every bin holds the accumulated energy of the
    masked channel: XX[b][i][i] is the real number
    sum over f of |X[i][f][b] M[i][f][b]|^2, which is not negative. *)
Theorem scm_diagonal_energy (Xs : ndarray3 complex)
  (Ms : option (ndarray3 complex))
  (Hmask : mask_compatible Xs Ms) :
  exists XX, scm Xs Ms = Ok XX /\
    forall b i, (b < dim2 Xs)%nat -> (i < dim0 Xs)%nat ->
      at3 XX b i i =
      RtoC (sum_to (dim1 Xs)
              (fun f => Cnorm2 (Cmul (at3 Xs i f b) (weight Ms i f b)))) /\
      0 <= Re (at3 XX b i i).
Proof.
  destruct (scm_compatible Xs Ms Hmask) as (XX & Hrun & _ & Hent).
  exists XX. split; [exact Hrun|].
  intros b i Hb Hi.
  assert (E : at3 XX b i i =
    RtoC (sum_to (dim1 Xs)
            (fun f => Cnorm2 (Cmul (at3 Xs i f b) (weight Ms i f b))))).
  { rewrite (Hent b i i Hb Hi Hi). unfold scm_spec_entry.
    rewrite <- sum_to_RtoC. apply sum_to_ext. intros f _.
    apply Cmul_conj_self. }
  split; [exact E|].
  rewrite E. cbn [Re RtoC].
  apply sum_to_nonneg. intros f _. apply Cnorm2_nonneg.
Qed.

Lemma scm_diagonal_energy_witness :
  mask_compatible signal_2x2x1 (Some mask_2x2x1) /\
  exists XX, scm signal_2x2x1 (Some mask_2x2x1) = Ok XX /\
    at3 XX 0 1 1 = RtoC 10.
Proof.
  split; [reflexivity|].
  destruct (scm_diagonal_energy signal_2x2x1 (Some mask_2x2x1) eq_refl)
    as (XX & Hrun & Hdiag).
  exists XX. split; [exact Hrun|].
  destruct (Hdiag 0%nat 1%nat) as (E & _); [cbn; lia|cbn; lia|].
  rewrite E. apply complex_eq; unfold Cnorm2; simpl; ring.
Defined.

(** X5.  Masking is a multiplication of the signal before the correlation:
    [scm] of X with a mask of its shape returns the entries that [scm]
    returns for the masked signal X . M without mask. *)
Theorem scm_mask_is_premultiplication (Xs : ndarray3 complex)
  (Ms : option (ndarray3 complex))
  (Hmask : mask_compatible Xs Ms) :
  exists XX YY, scm Xs Ms = Ok XX /\ scm (masked_signal Xs Ms) None = Ok YY /\
    shape3 XX = shape3 YY /\
    forall b i j, (b < dim2 Xs)%nat -> (i < dim0 Xs)%nat -> (j < dim0 Xs)%nat ->
      at3 XX b i j = at3 YY b i j.
Proof.
  destruct (scm_compatible Xs Ms Hmask) as (XX & Hrun & Hshape & Hent).
  destruct (scm_compatible (masked_signal Xs Ms) None I)
    as (YY & Hrun' & Hshape' & Hent').
  exists XX, YY. split; [exact Hrun|]. split; [exact Hrun'|].
  split; [rewrite Hshape, Hshape'; reflexivity|].
  intros b i j Hb Hi Hj.
  rewrite (Hent b i j Hb Hi Hj), (Hent' b i j Hb Hi Hj).
  unfold scm_spec_entry. cbn [masked_signal dim1 at3 weight].
  apply sum_to_ext. intros f _. rewrite !Cmul_1_r. reflexivity.
Qed.

Lemma scm_mask_is_premultiplication_witness :
  mask_compatible signal_2x2x1 (Some mask_2x2x1) /\
  exists XX YY, scm signal_2x2x1 (Some mask_2x2x1) = Ok XX /\
    scm (masked_signal signal_2x2x1 (Some mask_2x2x1)) None = Ok YY /\
    at3 XX 0 0 1 = at3 YY 0 0 1.
Proof.
  split; [reflexivity|].
  destruct (scm_mask_is_premultiplication signal_2x2x1 (Some mask_2x2x1)
              eq_refl) as (XX & YY & Hrun & Hrun' & _ & Heq).
  exists XX, YY. split; [exact Hrun|]. split; [exact Hrun'|].
  apply Heq; cbn; lia.
Defined.

(** X6.  [scm] is homogeneous of degree two: multiplying the signal by a
    constant c multiplies every entry of the result by |c|^2. *)
Theorem scm_scaling (Xs : ndarray3 complex) (Ms : option (ndarray3 complex))
  (c : complex)
  (Hmask : mask_compatible Xs Ms) :
  exists XX YY, scm Xs Ms = Ok XX /\ scm (scale3 c Xs) Ms = Ok YY /\
    shape3 YY = shape3 XX /\
    forall b i j, (b < dim2 Xs)%nat -> (i < dim0 Xs)%nat -> (j < dim0 Xs)%nat ->
      at3 YY b i j = Cmul (RtoC (Cnorm2 c)) (at3 XX b i j).
Proof.
  destruct (scm_compatible Xs Ms Hmask) as (XX & Hrun & Hshape & Hent).
  assert (Hmask' : mask_compatible (scale3 c Xs) Ms)
    by (destruct Ms; [exact Hmask|exact I]).
  destruct (scm_compatible (scale3 c Xs) Ms Hmask')
    as (YY & Hrun' & Hshape' & Hent').
  exists XX, YY. split; [exact Hrun|]. split; [exact Hrun'|].
  split; [rewrite Hshape, Hshape'; reflexivity|].
  intros b i j Hb Hi Hj.
  rewrite (Hent b i j Hb Hi Hj), (Hent' b i j Hb Hi Hj).
  unfold scm_spec_entry. cbn [scale3 dim1 at3].
  rewrite <- sum_to_scale_l. apply sum_to_ext. intros f _.
  apply complex_eq; unfold Cnorm2; simpl; ring.
Qed.

Lemma scm_scaling_witness :
  mask_compatible signal_2x2x1 (Some mask_2x2x1) /\
  exists XX YY, scm signal_2x2x1 (Some mask_2x2x1) = Ok XX /\
    scm (scale3 (mkC 1 1) signal_2x2x1) (Some mask_2x2x1) = Ok YY /\
    at3 YY 0 0 1 = Cmul (RtoC (Cnorm2 (mkC 1 1))) (at3 XX 0 0 1).
Proof.
  split; [reflexivity|].
  destruct (scm_scaling signal_2x2x1 (Some mask_2x2x1) (mkC 1 1) eq_refl)
    as (XX & YY & Hrun & Hrun' & _ & Heq).
  exists XX, YY. split; [exact Hrun|]. split; [exact Hrun'|].
  apply Heq; cbn; lia.
Defined.

(** ** [freefield] *)

Lemma Cexp_neg_j (x : R) :
  Cexp (Cmul (Copp Cj) (RtoC x)) = mkC (cos x) (- sin x).
Proof.
  apply complex_eq; cbn [Re Im Cexp Cmul Copp Cj RtoC].
  - replace (- 0 * x - - (1) * 0) with 0 by ring.
    replace (- 0 * 0 + - (1) * x) with (- x) by ring.
    rewrite exp_0, cos_neg. ring.
  - replace (- 0 * x - - (1) * 0) with 0 by ring.
    replace (- 0 * 0 + - (1) * x) with (- x) by ring.
    rewrite exp_0, sin_neg. ring.
Qed.

(** The product of two plane-wave responses of a bin is the response to
    the difference of the delays. *)
Lemma plane_wave_product (N : Z) (tdoas : list R) (k i j : nat) :
  Cmul (plane_wave N tdoas k i) (Cconj (plane_wave N tdoas k j))
  = Cexp (Cmul (Copp Cj)
            (RtoC (2 * PI * INR k * (nth i tdoas 0 - nth j tdoas 0) / IZR N))).
Proof.
  unfold plane_wave. rewrite !Cexp_neg_j.
  replace (2 * PI * INR k * (nth i tdoas 0 - nth j tdoas 0) / IZR N)
    with (2 * PI * INR k * nth i tdoas 0 / IZR N
          - 2 * PI * INR k * nth j tdoas 0 / IZR N)
    by (unfold Rdiv; ring).
  rewrite cos_minus, sin_minus.
  apply complex_eq; cbn [Re Im Cmul Cconj]; ring.
Qed.

(** X7.  The entries of [freefield] depend on the delays only through their
    differences: XX[k][i][j] = exp(-j 2 pi k (tdoa[i] - tdoa[j]) / N), for
    every non-zero frame size. *)
Theorem freefield_delay_differences (tdoas : list R) (N : Z)
  (HN : (N <> 0)%Z) :
  exists XX, freefield tdoas N = Ok XX /\
    forall k i j, (k < dim0 XX)%nat ->
      at3 XX k i j =
      Cexp (Cmul (Copp Cj)
              (RtoC (2 * PI * INR k * (nth i tdoas 0 - nth j tdoas 0)
                     / IZR N))).
Proof.
  destruct (freefield_returns tdoas N HN) as (XX & Hrun & Hshape & Hent).
  exists XX. split; [exact Hrun|].
  injection Hshape as H0 _ _.
  intros k i j Hk. rewrite Hent by (rewrite <- H0; exact Hk).
  apply plane_wave_product.
Qed.

Lemma freefield_delay_differences_witness :
  (8 <> 0)%Z /\
  exists XX, freefield [0; 1] 8 = Ok XX /\
    at3 XX 2 1 0 = mkC 0 (-1).
Proof.
  split; [discriminate|].
  destruct (freefield_delay_differences [0; 1] 8) as (XX & Hrun & Hent);
    [discriminate|].
  exists XX. split; [exact Hrun|].
  assert (Hshape : (2 < dim0 XX)%nat).
  { destruct (freefield_returns [0; 1] 8) as (XX' & Hrun' & Hshape & _);
      [discriminate|].
    rewrite Hrun in Hrun'. injection Hrun' as <-.
    injection Hshape as -> _ _. cbn. lia. }
  rewrite (Hent 2%nat 1%nat 0%nat Hshape). rewrite Cexp_neg_j.
  cbn [nth INR].
  replace (2 * PI * (1 + 1) * (1 - 0) / 8) with (PI / 2) by field.
  rewrite cos_PI2, sin_PI2. reflexivity.
Defined.

(** X8.  Adding the same delay to every channel does not change the result
    of [freefield]. *)
Theorem freefield_common_delay (tdoas : list R) (d : R) (N : Z)
  (HN : (N <> 0)%Z) :
  exists XX YY, freefield tdoas N = Ok XX /\
    freefield (map (fun t => t + d) tdoas) N = Ok YY /\
    shape3 YY = shape3 XX /\
    forall k i j, (k < dim0 XX)%nat ->
      (i < length tdoas)%nat -> (j < length tdoas)%nat ->
      at3 YY k i j = at3 XX k i j.
Proof.
  destruct (freefield_returns tdoas N HN) as (XX & Hrun & Hshape & Hent).
  destruct (freefield_returns (map (fun t => t + d) tdoas) N HN)
    as (YY & Hrun' & Hshape' & Hent').
  exists XX, YY. split; [exact Hrun|]. split; [exact Hrun'|].
  rewrite length_map in Hshape'.
  split; [rewrite Hshape, Hshape'; reflexivity|].
  injection Hshape as H0 _ _.
  intros k i j Hk Hi Hj. rewrite H0 in Hk.
  rewrite (Hent k i j Hk), (Hent' k i j Hk), !plane_wave_product.
  rewrite !(nth_indep _ 0 (0 + d)) by (rewrite length_map; assumption).
  rewrite !(map_nth (fun t => t + d)).
  do 3 f_equal. unfold Rdiv. ring.
Qed.

Lemma freefield_common_delay_witness :
  (8 <> 0)%Z /\
  exists XX YY, freefield [0; 1] 8 = Ok XX /\
    freefield [0 + 5; 1 + 5] 8 = Ok YY /\
    at3 YY 0 1 0 = at3 XX 0 1 0.
Proof.
  split; [discriminate|].
  destruct (freefield_common_delay [0; 1] 5 8)
    as (XX & YY & Hrun & Hrun' & _ & Heq); [discriminate|].
  exists XX, YY. split; [exact Hrun|]. split; [exact Hrun'|].
  apply Heq; [|cbn; lia|cbn; lia].
  destruct (freefield_returns [0; 1] 8) as (XX' & Hrun'' & Hshape & _);
    [discriminate|].
  rewrite Hrun in Hrun''. injection Hrun'' as <-.
  injection Hshape as -> _ _. cbn. lia.
Defined.

Lemma Cexp_neg_j_unit (x : R) : Cnorm2 (Cexp (Cmul (Copp Cj) (RtoC x))) = 1.
Proof.
  rewrite Cexp_neg_j. unfold Cnorm2. cbn [Re Im].
  pose proof (sin2_cos2 x) as H. unfold Rsqr in H. lra.
Qed.

(** X9.  Every bin of the result of [freefield] is Hermitian, all its
    entries have modulus 1 and its diagonal is 1. *)
Theorem freefield_hermitian_unit_modulus (tdoas : list R) (N : Z)
  (HN : (N <> 0)%Z) :
  exists XX, freefield tdoas N = Ok XX /\
    forall k i j, (k < dim0 XX)%nat ->
      at3 XX k i j = Cconj (at3 XX k j i) /\
      Cnorm2 (at3 XX k i j) = 1 /\
      at3 XX k i i = C1.
Proof.
  destruct (freefield_returns tdoas N HN) as (XX & Hrun & Hshape & Hent).
  exists XX. split; [exact Hrun|].
  injection Hshape as H0 _ _.
  intros k i j Hk. rewrite H0 in Hk.
  rewrite !(Hent k _ _ Hk).
  split; [|split].
  - apply complex_eq; simpl; ring.
  - rewrite plane_wave_product. apply Cexp_neg_j_unit.
  - rewrite Cmul_conj_self. unfold plane_wave. rewrite Cexp_neg_j_unit.
    reflexivity.
Qed.

Lemma freefield_hermitian_unit_modulus_witness :
  (8 <> 0)%Z /\
  exists XX, freefield [0; 1] 8 = Ok XX /\ at3 XX 0 1 1 = C1.
Proof.
  split; [discriminate|].
  destruct (freefield_hermitian_unit_modulus [0; 1] 8)
    as (XX & Hrun & Hprop); [discriminate|].
  exists XX. split; [exact Hrun|].
  apply (Hprop 0%nat 1%nat 1%nat).
  destruct (freefield_returns [0; 1] 8) as (XX' & Hrun'' & Hshape & _);
    [discriminate|].
  rewrite Hrun in Hrun''. injection Hrun'' as <-.
  injection Hshape as -> _ _. cbn. lia.
Defined.

(** X10.  Every bin of the result of [freefield] has rank at most one: all
    its 2x2 minors vanish, XX[k][i][j] XX[k][l][m] = XX[k][i][m] XX[k][l][j]. *)
Theorem freefield_rank_one (tdoas : list R) (N : Z)
  (HN : (N <> 0)%Z) :
  exists XX, freefield tdoas N = Ok XX /\
    forall k i j l m, (k < dim0 XX)%nat ->
      Cmul (at3 XX k i j) (at3 XX k l m)
      = Cmul (at3 XX k i m) (at3 XX k l j).
Proof.
  destruct (freefield_returns tdoas N HN) as (XX & Hrun & Hshape & Hent).
  exists XX. split; [exact Hrun|].
  injection Hshape as H0 _ _.
  intros k i j l m Hk. rewrite H0 in Hk.
  rewrite !(Hent k _ _ Hk).
  apply complex_eq; simpl; ring.
Qed.

Lemma freefield_rank_one_witness :
  (8 <> 0)%Z /\
  exists XX, freefield [0; 1] 8 = Ok XX /\
    Cmul (at3 XX 1 0 0) (at3 XX 1 1 1) = Cmul (at3 XX 1 0 1) (at3 XX 1 1 0).
Proof.
  split; [discriminate|].
  destruct (freefield_rank_one [0; 1] 8) as (XX & Hrun & Hprop);
    [discriminate|].
  exists XX. split; [exact Hrun|].
  apply Hprop.
  destruct (freefield_returns [0; 1] 8) as (XX' & Hrun'' & Hshape & _);
    [discriminate|].
  rewrite Hrun in Hrun''. injection Hrun'' as <-.
  injection Hshape as -> _ _. cbn. lia.
Defined.

(** X11.  The first bin (frequency zero) of [freefield] is the all-ones
    matrix whatever the delays, for every positive frame size. *)
Theorem freefield_bin_zero (tdoas : list R) (N : Z)
  (HN : (0 < N)%Z) :
  exists XX, freefield tdoas N = Ok XX /\
    (0 < dim0 XX)%nat /\
    forall i j, at3 XX 0 i j = C1.
Proof.
  destruct (freefield_returns tdoas N) as (XX & Hrun & Hshape & Hent); [lia|].
  exists XX. split; [exact Hrun|].
  injection Hshape as H0 _ _.
  assert (Hpos : (0 < Z.to_nat (N ÷ 2 + 1))%nat).
  { pose proof (Z.quot_pos N 2). lia. }
  split; [rewrite H0; exact Hpos|].
  intros i j. rewrite (Hent 0%nat i j Hpos), plane_wave_product.
  cbn [INR].
  replace (2 * PI * 0 * (nth i tdoas 0 - nth j tdoas 0) / IZR N) with 0
    by (unfold Rdiv; ring).
  rewrite Cexp_neg_j, cos_0, sin_0.
  apply complex_eq; simpl; ring.
Qed.

Lemma freefield_bin_zero_witness :
  (0 < 8)%Z /\
  exists XX, freefield [0; 1] 8 = Ok XX /\ at3 XX 0 1 0 = C1.
Proof.
  split; [reflexivity|].
  destruct (freefield_bin_zero [0; 1] 8 eq_refl) as (XX & Hrun & _ & Hprop).
  exists XX. split; [exact Hrun|]. apply Hprop.
Defined.

(** X12.  A negative frame size is not rejected: for N <= -2 [freefield]
    returns a stack without bins, of shape [0, C, C], and for N = -1 a
    single bin. *)
Theorem freefield_negative_frame_size (tdoas : list R) (N : Z)
  (HN : (N < 0)%Z) :
  exists XX, freefield tdoas N = Ok XX /\
    shape3 XX =
    ((if (N <=? -2)%Z then 0 else 1)%nat, length tdoas, length tdoas).
Proof.
  destruct (freefield_returns tdoas N) as (XX & Hrun & Hshape & _); [lia|].
  exists XX. split; [exact Hrun|].
  rewrite Hshape. f_equal. f_equal.
  destruct (Z.leb_spec N (-2)) as [Hle|Hgt].
  - assert (N ÷ 2 <= -1)%Z.
    { rewrite <- (Z.opp_involutive N), Z.quot_opp_l by lia.
      pose proof (Z.quot_le_lower_bound (- N) 2 1). lia. }
    lia.
  - assert (N = -1)%Z as -> by lia. reflexivity.
Qed.

Lemma freefield_negative_frame_size_witness :
  (-6 < 0)%Z /\
  exists XX, freefield [0; 1] (-6) = Ok XX /\ shape3 XX = (0, 2, 2)%nat.
Proof.
  split; [reflexivity|].
  destruct (freefield_negative_frame_size [0; 1] (-6) eq_refl)
    as (XX & Hrun & Hshape).
  exists XX. split; [exact Hrun|exact Hshape].
Defined.

(** ** [steering] *)

Lemma Cnorm2_mul (z w : complex) : Cnorm2 (Cmul z w) = Cnorm2 z * Cnorm2 w.
Proof. unfold Cnorm2. simpl. ring. Qed.

Lemma Cnorm2_conj (z : complex) : Cnorm2 (Cconj z) = Cnorm2 z.
Proof. unfold Cnorm2. simpl. ring. Qed.



(** X13.  The phase normalisation of [steering] keeps the modulus of every
    component of the eigenvector, hence the norm of the vector of every
    bin. *)
Theorem steering_keeps_modulus
  (eigh : ndarray3 complex -> result (ndarray2 R * ndarray3 cfloat))
  (XXs : ndarray3 complex) (w : ndarray2 R) (V : ndarray3 cfloat)
  (He : eigh XXs = Ok (w, V))
  (Hshapes : eigh_shapes XXs w V)
  (HC : (1 <= dim1 XXs)%nat) :
  exists vs, steering eigh XXs = Ok vs /\
    forall b, (b < dim0 XXs)%nat ->
      (forall i, Cnorm2 (at2 vs b i) = Cnorm2 (at3 V b i (dim1 XXs - 1))) /\
      sum_to (dim1 XXs) (fun i => Cnorm2 (at2 vs b i))
      = sum_to (dim1 XXs) (fun i => Cnorm2 (at3 V b i (dim1 XXs - 1))).
Proof.
  destruct (steering_returns eigh XXs w V He Hshapes HC)
    as (vs & Hrun & _ & Hent).
  exists vs. split; [exact Hrun|].
  intros b Hb.
  assert (Hmod : forall i,
             Cnorm2 (at2 vs b i) = Cnorm2 (at3 V b i (dim1 XXs - 1))).
  { intros i. rewrite (Hent b i Hb).
    rewrite Cdiv_unit by apply phase_unit.
    rewrite Cnorm2_mul, Cnorm2_conj, phase_unit. ring. }
  split; [exact Hmod|].
  apply sum_to_ext. intros i _. apply Hmod.
Qed.

Lemma steering_keeps_modulus_witness :
  eigh_fours fours_2x2 = Ok (eigenvalues_0_8, vectors_fours) /\
  eigh_shapes fours_2x2 eigenvalues_0_8 vectors_fours /\
  (1 <= dim1 fours_2x2)%nat /\
  exists vs, steering eigh_fours fours_2x2 = Ok vs /\
    Cnorm2 (at2 vs 0 1) = Cnorm2 (mkC 0 (/ sqrt 2)).
Proof.
  split; [reflexivity|].
  split; [repeat split|].
  split; [cbn; lia|].
  destruct (steering_keeps_modulus eigh_fours fours_2x2
              eigenvalues_0_8 vectors_fours eq_refl)
    as (vs & Hrun & Hmod).
  - repeat split.
  - cbn; lia.
  - exists vs. split; [exact Hrun|].
    destruct (Hmod 0%nat) as (Hi & _); [cbn; lia|].
    exact (Hi 1%nat).
Defined.




(** X15.  On a stack without channels, for which the decomposition returns
    empty arrays, [steering] raises IndexError: there is no last
    eigenvector to take. *)
Theorem steering_no_channels
  (eigh : ndarray3 complex -> result (ndarray2 R * ndarray3 cfloat))
  (XXs : ndarray3 complex) (w : ndarray2 R) (V : ndarray3 cfloat)
  (He : eigh XXs = Ok (w, V))
  (Hshapes : eigh_shapes XXs w V)
  (HC : dim1 XXs = 0%nat) :
  steering eigh XXs = Raise IndexError.
Proof.
  destruct Hshapes as (Hsq & _ & HV). injection HV as H0 H1 H2.
  unfold steering. rewrite He. cbn [bind snd]. unfold last_column.
  rewrite H2, <- Hsq, HC. reflexivity.
Qed.

Lemma steering_no_channels_witness :
  eigh_no_channels no_channels = Ok (zeros2 2 0, no_vectors) /\
  eigh_shapes no_channels (zeros2 2 0) no_vectors /\
  dim1 no_channels = 0%nat /\
  steering eigh_no_channels no_channels = Raise IndexError.
Proof.
  split; [reflexivity|].
  split; [repeat split|].
  split; [reflexivity|].
  apply (steering_no_channels eigh_no_channels no_channels
           (zeros2 2 0) no_vectors eq_refl).
  - repeat split.
  - reflexivity.
Defined.

(** ** [steering] of the result of [freefield] *)

Lemma Cmul_RtoC_cancel_l (r : R) (a b : complex) :
  r <> 0 -> Cmul (RtoC r) a = Cmul (RtoC r) b -> a = b.
Proof.
  intros Hr Heq. injection Heq as E1 E2.
  apply complex_eq.
  - apply (Rmult_eq_reg_l r); [lra|exact Hr].
  - apply (Rmult_eq_reg_l r); [lra|exact Hr].
Qed.

(** On a bin that is the outer product a a^H, with a non-zero dominant
    eigenvalue, the vector returned by [steering] is a multiple of a by a
    real factor: vs[i] a[0] = |v0| a[i], v0 the first component of the
    eigenvector. *)
Lemma steering_rank_one
  (eigh : ndarray3 complex -> result (ndarray2 R * ndarray3 cfloat))
  (XXs : ndarray3 complex) (w : ndarray2 R) (V : ndarray3 cfloat)
  (a : nat -> complex) (b : nat) :
  eigh XXs = Ok (w, V) ->
  eigh_contract XXs w V ->
  (1 <= dim1 XXs)%nat ->
  (b < dim0 XXs)%nat ->
  (forall i j, (i < dim1 XXs)%nat -> (j < dim1 XXs)%nat ->
     at3 XXs b i j = Cmul (a i) (Cconj (a j))) ->
  at2 w b (dim1 XXs - 1) <> 0 ->
  exists vs, steering eigh XXs = Ok vs /\
    forall i, (i < dim1 XXs)%nat ->
      Cmul (at2 vs b i) (a 0%nat)
      = Cmul (RtoC (Cabs (at3 V b 0 (dim1 XXs - 1)))) (a i).
Proof.
  intros He (Hshapes & Hbins) HC Hb Hrank Hnz.
  destruct (steering_returns eigh XXs w V He Hshapes HC)
    as (vs & Hrun & _ & Hent).
  exists vs. split; [exact Hrun|].
  destruct Hshapes as (Hsq & _).
  destruct (Hbins b Hb) as (_ & Heig).
  set (last := (dim1 XXs - 1)%nat) in *.
  assert (Hlast : (last < dim1 XXs)%nat) by (subst last; lia).
  set (S := sum_to (dim1 XXs) (fun j => Cmul (Cconj (a j)) (at3 V b j last))).
  assert (Hcol : forall i, (i < dim1 XXs)%nat ->
             Cmul (RtoC (at2 w b last)) (at3 V b i last) = Cmul (a i) S).
  { intros i Hi. rewrite <- (Heig last Hlast i Hi). rewrite <- Hsq.
    unfold S. rewrite <- sum_to_scale_l.
    apply sum_to_ext. intros j Hj. rewrite (Hrank i j Hi Hj).
    symmetry. apply Cmul_assoc. }
  intros i Hi.
  apply (Cmul_RtoC_cancel_l (at2 w b last)); [exact Hnz|].
  rewrite (Hent b i Hb).
  rewrite Cdiv_unit by apply phase_unit.
  rewrite <- (Cdiv_own_phase (at3 V b 0 last)).
  rewrite Cdiv_unit by apply phase_unit.
  set (q := Cconj (phase (at3 V b 0 last))).
  transitivity (Cmul (Cmul (Cmul (RtoC (at2 w b last)) (at3 V b i last)) q)
                     (a 0%nat)).
  { apply complex_eq; simpl; ring. }
  transitivity (Cmul (Cmul (Cmul (RtoC (at2 w b last)) (at3 V b 0 last)) q)
                     (a i)).
  2:{ apply complex_eq; simpl; ring. }
  rewrite (Hcol i Hi), (Hcol 0%nat) by lia.
  apply complex_eq; simpl; ring.
Qed.

Lemma plane_wave_unit (N : Z) (tdoas : list R) (k c : nat) :
  Cmul (plane_wave N tdoas k c) (Cconj (plane_wave N tdoas k c)) = C1.
Proof.
  rewrite Cmul_conj_self. unfold plane_wave. rewrite Cexp_neg_j_unit.
  reflexivity.
Qed.

(** X16.  [steering] applied to the result of [freefield] recovers the
    relative phases of the channels: when the decomposition returns
    ascending eigenvalues with their eigenvectors and the dominant
    eigenvalue of bin k is not zero, the vector of bin k is
    |v0| exp(-j 2 pi k (tdoa[i] - tdoa[0]) / N), where v0 is the first
    component of the dominant eigenvector. *)
Theorem steering_of_freefield
  (eigh : ndarray3 complex -> result (ndarray2 R * ndarray3 cfloat))
  (tdoas : list R) (N : Z)
  (XX : ndarray3 complex) (w : ndarray2 R) (V : ndarray3 cfloat) (k : nat)
  (HN : (N <> 0)%Z)
  (Hff : freefield tdoas N = Ok XX)
  (He : eigh XX = Ok (w, V))
  (Hcontract : eigh_contract XX w V)
  (HC : (1 <= length tdoas)%nat)
  (Hk : (k < dim0 XX)%nat)
  (Hnz : at2 w k (length tdoas - 1) <> 0) :
  exists vs, steering eigh XX = Ok vs /\
    forall i, (i < length tdoas)%nat ->
      at2 vs k i =
      Cmul (RtoC (Cabs (at3 V k 0 (length tdoas - 1))))
           (Cexp (Cmul (Copp Cj)
                    (RtoC (2 * PI * INR k * (nth i tdoas 0 - nth 0 tdoas 0)
                           / IZR N)))).
Proof.
  destruct (freefield_returns tdoas N HN) as (XX' & Hrun & Hshape & Hent).
  rewrite Hff in Hrun. injection Hrun as <-.
  injection Hshape as H0 H1 H2.
  rewrite <- H1 in *.
  destruct (steering_rank_one eigh XX w V (plane_wave N tdoas k) k
              He Hcontract HC Hk) as (vs & Hsteer & Hvs).
  - intros i j _ _. apply Hent. rewrite <- H0. exact Hk.
  - exact Hnz.
  - exists vs. split; [exact Hsteer|].
    intros i Hi.
    rewrite <- plane_wave_product.
    transitivity (Cmul (Cmul (at2 vs k i) (plane_wave N tdoas k 0))
                       (Cconj (plane_wave N tdoas k 0))).
    { rewrite <- Cmul_assoc, plane_wave_unit, Cmul_1_r. reflexivity. }
    rewrite (Hvs i Hi). symmetry. apply Cmul_assoc.
Qed.

Lemma eigh_contract_ones (XX : ndarray3 complex) :
  shape3 XX = (3, 2, 2)%nat ->
  (forall k i j, (k < 3)%nat -> at3 XX k i j = C1) ->
  eigh_contract XX eigenvalues_0_2 vectors_ones.
Proof.
  intros Hshape Hones. injection Hshape as H0 H1 H2.
  split.
  - unfold eigh_shapes, shape2, shape3. rewrite H0, H1, H2.
    repeat split.
  - intros b Hb. rewrite H0 in Hb. split.
    + intros k k' Hle Hk'. rewrite H1 in Hk'.
      destruct (lt_3_cases b Hb) as [->|[->| ->]];
        destruct (lt_2_cases k' Hk') as [-> | ->];
        destruct k as [|[|k]]; try lia; cbn; lra.
    + intros k Hk i Hi. rewrite H1 in Hk, Hi. rewrite H2.
      cbn [sum_to]. rewrite !(Hones b _ _ Hb).
      destruct (lt_3_cases b Hb) as [->|[->| ->]];
        destruct (lt_2_cases k Hk) as [-> | ->];
        destruct (lt_2_cases i Hi) as [-> | ->];
        apply complex_eq; simpl; ring.
Defined.

Lemma steering_of_freefield_witness :
  (4 <> 0)%Z /\ (1 <= length [0; 0])%nat /\
  exists XX vs, freefield [0; 0] 4 = Ok XX /\
    eigh_ones XX = Ok (eigenvalues_0_2, vectors_ones) /\
    eigh_contract XX eigenvalues_0_2 vectors_ones /\
    steering eigh_ones XX = Ok vs /\
    at2 vs 1 1 =
    Cmul (RtoC (Cabs C1))
         (Cexp (Cmul (Copp Cj) (RtoC (2 * PI * INR 1 * (0 - 0) / IZR 4)))).
Proof.
  split; [discriminate|]. split; [cbn; lia|].
  destruct (freefield_returns [0; 0] 4) as (XX & Hrun & Hshape & Hent);
    [discriminate|].
  assert (Hones : forall k i j, (k < 3)%nat -> at3 XX k i j = C1).
  { intros k i j Hk. rewrite Hent by exact Hk.
    rewrite !plane_wave_zero by (apply nth_zeros; repeat constructor).
    apply Cmul_1_conj_1. }
  pose proof (eigh_contract_ones XX Hshape Hones) as Hcontract.
  assert (Hk : (1 < dim0 XX)%nat)
    by (injection Hshape as -> _ _; cbn; lia).
  destruct (steering_of_freefield eigh_ones [0; 0] 4 XX
              eigenvalues_0_2 vectors_ones 1)
    as (vs & Hsteer & Hvs); try assumption; try reflexivity.
  - discriminate.
  - cbn; lia.
  - cbn. lra.
  - exists XX, vs. split; [exact Hrun|]. split; [reflexivity|].
    split; [exact Hcontract|]. split; [exact Hsteer|].
    apply (Hvs 1%nat). cbn; lia.
Defined.

(** ** [rotmat] *)

Lemma rotation_keeps_length (sa ca sb cb sg cg x y z : R) :
  unit_pair sa ca -> unit_pair sb cb -> unit_pair sg cg ->
  (cb * cg * x + (sa * sb * cg - ca * sg) * y + (ca * sb * cg + sa * sg) * z)
  * (cb * cg * x + (sa * sb * cg - ca * sg) * y + (ca * sb * cg + sa * sg) * z)
  + (cb * sg * x + (sa * sb * sg + ca * cg) * y + (ca * sb * sg - sa * cg) * z)
    * (cb * sg * x + (sa * sb * sg + ca * cg) * y + (ca * sb * sg - sa * cg) * z)
  + (- sb * x + sa * cb * y + ca * cb * z)
    * (- sb * x + sa * cb * y + ca * cb * z)
  = x * x + y * y + z * z.
Proof. unfold unit_pair; intros Ha Hb Hg; nsatz. Qed.

(** X18.  The matrix returned by [rotmat] keeps the length of every vector
    it is applied to. *)
Theorem rotmat_keeps_length (yaw pitch roll x y z : R) :
  exists M, rotmat yaw pitch roll = Ok M /\
    norm2_3 (apply3 M (x, y, z)) = norm2_3 (x, y, z).
Proof.
  destruct (rotmat_returns yaw pitch roll) as (M & HM & E).
  destruct E as [Hshape e00 e01 e02 e10 e11 e12 e20 e21 e22].
  exists M. split; [exact HM|].
  unfold norm2_3, apply3.
  rewrite e00, e01, e02, e10, e11, e12, e20, e21, e22.
  exact (rotation_keeps_length _ _ _ _ _ _ x y z
           (sin_cos_unit yaw) (sin_cos_unit pitch) (sin_cos_unit roll)).
Qed.

Lemma unit_row_bound (a b c : R) : a * a + b * b + c * c = 1 ->
  (-1 <= a <= 1) /\ (-1 <= b <= 1) /\ (-1 <= c <= 1).
Proof. intros H. repeat split; nra. Qed.

(** X19.  Every entry of the matrix returned by [rotmat] lies between -1
    and 1. *)
Theorem rotmat_entries_bounded (yaw pitch roll : R) :
  exists M, rotmat yaw pitch roll = Ok M /\
    forall i j, (i < 3)%nat -> (j < 3)%nat -> -1 <= at2 M i j <= 1.
Proof.
  destruct (rotmat_returns yaw pitch roll) as (M & HM & E).
  destruct E as [Hshape e00 e01 e02 e10 e11 e12 e20 e21 e22].
  exists M. split; [exact HM|].
  pose proof (sin_cos_unit yaw) as Ha.
  pose proof (sin_cos_unit pitch) as Hb.
  pose proof (sin_cos_unit roll) as Hg.
  pose proof (row0_unit _ _ _ _ _ _ Ha Hb Hg) as R0.
  pose proof (row1_unit _ _ _ _ _ _ Ha Hb Hg) as R1.
  pose proof (row2_unit _ _ _ _ _ _ Ha Hb Hg) as R2.
  rewrite <- e00, <- e01, <- e02 in R0.
  rewrite <- e10, <- e11, <- e12 in R1.
  rewrite <- e20, <- e21, <- e22 in R2.
  destruct (unit_row_bound _ _ _ R0) as (B00 & B01 & B02).
  destruct (unit_row_bound _ _ _ R1) as (B10 & B11 & B12).
  destruct (unit_row_bound _ _ _ R2) as (B20 & B21 & B22).
  intros i j Hi Hj.
  destruct (lt_3_cases i Hi) as [->|[->| ->]];
    destruct (lt_3_cases j Hj) as [->|[->| ->]]; assumption.
Qed.

(** X20.  [rotmat] is periodic: adding whole turns to the angles does not
    change the matrix. *)
Theorem rotmat_periodic (yaw pitch roll : R) (ky kp kr : nat) :
  exists M M', rotmat yaw pitch roll = Ok M /\
    rotmat (yaw + 2 * INR ky * PI) (pitch + 2 * INR kp * PI)
           (roll + 2 * INR kr * PI) = Ok M' /\
    array2_eq M' M.
Proof.
  destruct (rotmat_returns yaw pitch roll) as (M & HM & E).
  destruct (rotmat_returns (yaw + 2 * INR ky * PI) (pitch + 2 * INR kp * PI)
              (roll + 2 * INR kr * PI)) as (M' & HM' & E').
  exists M, M'. split; [exact HM|]. split; [exact HM'|].
  destruct E as [Hshape e00 e01 e02 e10 e11 e12 e20 e21 e22].
  destruct E' as [Hshape' f00 f01 f02 f10 f11 f12 f20 f21 f22].
  rewrite !sin_period, !cos_period in *.
  split; [congruence|].
  injection Hshape' as Hr Hc. rewrite Hr, Hc.
  intros i j Hi Hj.
  destruct (lt_3_cases i Hi) as [->|[->| ->]];
    destruct (lt_3_cases j Hj) as [->|[->| ->]]; congruence.
Qed.

(** X21.  At pitch = pi/2 the matrix returned by [rotmat] depends on the
    yaw and the roll only through their difference (gimbal lock): adding
    the same angle to both does not change it. *)
Theorem rotmat_gimbal_lock (yaw roll d : R) :
  exists M M', rotmat yaw (PI / 2) roll = Ok M /\
    rotmat (yaw + d) (PI / 2) (roll + d) = Ok M' /\
    array2_eq M' M.
Proof.
  destruct (rotmat_returns yaw (PI / 2) roll) as (M & HM & E).
  destruct (rotmat_returns (yaw + d) (PI / 2) (roll + d)) as (M' & HM' & E').
  exists M, M'. split; [exact HM|]. split; [exact HM'|].
  destruct E as [Hshape e00 e01 e02 e10 e11 e12 e20 e21 e22].
  destruct E' as [Hshape' f00 f01 f02 f10 f11 f12 f20 f21 f22].
  rewrite sin_PI2, cos_PI2 in *.
  assert (Hs : sin (yaw + d) * cos (roll + d) - cos (yaw + d) * sin (roll + d)
               = sin yaw * cos roll - cos yaw * sin roll).
  { rewrite <- !sin_minus. f_equal. ring. }
  assert (Hco : cos (yaw + d) * cos (roll + d) + sin (yaw + d) * sin (roll + d)
                = cos yaw * cos roll + sin yaw * sin roll).
  { rewrite <- !cos_minus. f_equal. ring. }
  split; [congruence|].
  injection Hshape' as Hr Hc. rewrite Hr, Hc.
  intros i j Hi Hj.
  destruct (lt_3_cases i Hi) as [->|[->| ->]];
    destruct (lt_3_cases j Hj) as [->|[->| ->]];
    match goal with |- ?l = ?r =>
      match goal with Hl : l = _, Hr : r = _ |- _ => rewrite Hl, Hr end end;
    try lra.
Qed.
